(** * pooshit: the synchronisation engine and the deployment sequencer

    A shallow embedding of [main.go]: ignore-pattern evaluation
    ([shouldIgnore], [matchPattern]), the two-phase push and pull
    ([SyncFiles], [PullFiles], [uploadFile], [downloadFile]) and the remote
    Docker pipeline ([ExecuteDockerCommands]).

    Conventions.
    - Go strings are [string]s whose characters are single bytes; where
      the library decodes runes ([strings.TrimSpace], [filepath.Match])
      the model decodes UTF-8 as [utf8.DecodeRuneInString] does.
    - Paths are Unix paths: [filepath.Separator] is ["/"] and
      [filepath.ToSlash] / [filepath.FromSlash] are the identity.
    - [int64] sizes and instants are [Z]; an instant is a number of
      nanoseconds since the epoch.  Counts of files are [nat].
    - The trees have no symbolic links, and they do not change while a
      run reads them.  [Stat] at an endpoint fails only on an absent
      path.
    - The library functions are those of Go 1.21, the version the README
      asks for, and of the SFTP client's walker.
    - Logging and the progress bar have no effect on any result and are
      left out. *)

From Stdlib Require Import ZArith Ascii.
From stdpp Require Import gmap strings.

Local Open Scope char_scope.

(** ** Go's [unicode/utf8] and [unicode] packages (the functions the
    library calls on the program's strings) *)

Module utf8.

Definition RuneError : N := 65533.     (* U+FFFD *)
Definition RuneSelf : N := 128.

(** The second, third or fourth byte of an encoding: its six low bits
    when the byte is between [lo] and [hi]. *)
Definition continuation (lo hi : N) (s : string) : option (N * string) :=
  match s with
  | String c s' =>
      let b := N_of_ascii c in
      if (lo <=? b)%N && (b <=? hi)%N then Some (N.land b 63, s') else None
  | EmptyString => None
  end.

(** [DecodeRuneInString]: the first rune of the string and its width in
    bytes; [(RuneError, 0)] for the empty string and [(RuneError, 1)]
    for an encoding that is not valid (a stray or a missing continuation
    byte, an overlong form, a surrogate, a value above U+10FFFF).  The
    bounds [lo] and [hi] of the second byte are the library's
    [acceptRanges]. *)
Definition DecodeRuneInString (s : string) : N * nat :=
  match s with
  | EmptyString => (RuneError, 0)
  | String c0 s1 =>
      let s0 := N_of_ascii c0 in
      if (s0 <? RuneSelf)%N then (s0, 1)
      else if (s0 <? 194)%N || (244 <? s0)%N then (RuneError, 1)
      else
        let lo := if (s0 =? 224)%N then 160%N
                  else if (s0 =? 240)%N then 144%N else 128%N in
        let hi := if (s0 =? 237)%N then 159%N
                  else if (s0 =? 244)%N then 143%N else 191%N in
        match continuation lo hi s1 with
        | None => (RuneError, 1)
        | Some (x1, s2) =>
            if (s0 <? 224)%N then
              (N.lor (N.shiftl (N.land s0 31) 6) x1, 2)
            else
              match continuation 128 191 s2 with
              | None => (RuneError, 1)
              | Some (x2, s3) =>
                  if (s0 <? 240)%N then
                    (N.lor (N.lor (N.shiftl (N.land s0 15) 12)
                                  (N.shiftl x1 6)) x2, 3)
                  else
                    match continuation 128 191 s3 with
                    | None => (RuneError, 1)
                    | Some (x3, _) =>
                        (N.lor (N.lor (N.lor (N.shiftl (N.land s0 7) 18)
                                             (N.shiftl x1 12))
                                      (N.shiftl x2 6)) x3, 4)
                    end
              end
        end
  end.

(** [RuneStart]: the byte is not a continuation byte. *)
Definition RuneStart (c : ascii) : bool :=
  negb ((128 <=? N_of_ascii c)%N && (N_of_ascii c <=? 191)%N).

(** The loop of [DecodeLastRuneInString] that goes back from the last
    byte to a byte that starts a rune, over three bytes at most.
    [before] is what is before the bytes [seen], last byte first; the
    result is the end of the string from the byte found. *)
Fixpoint lastRune (steps : nat) (before seen : string) : option string :=
  match steps, before with
  | S steps', String c before' =>
      if RuneStart c then Some (String c seen)
      else lastRune steps' before' (String c seen)
  | _, _ => None
  end.

(** [DecodeLastRuneInString]: the last rune of the string and its width;
    [(RuneError, 1)] when the bytes from the start found do not decode
    to one rune that ends the string. *)
Definition DecodeLastRuneInString (s : string) : N * nat :=
  match String.rev s with
  | EmptyString => (RuneError, 0)
  | String c before =>
      let r := N_of_ascii c in
      if (r <? RuneSelf)%N then (r, 1)
      else
        match lastRune 3 before (String c EmptyString) with
        | Some tail =>
            let '(r, size) := DecodeRuneInString tail in
            if (size =? String.length tail)%nat then (r, size)
            else (RuneError, 1)
        | None => (RuneError, 1)
        end
  end.

End utf8.

Module unicode.

(** [IsSpace]: the white space of Latin-1 and the rest of the Unicode
    property [White_Space]. *)
Definition IsSpace (r : N) : bool :=
  ((9 <=? r)%N && (r <=? 13)%N) || (r =? 32)%N
  || (r =? 133)%N || (r =? 160)%N                        (* U+0085, U+00A0 *)
  || (r =? 5760)%N                                       (* U+1680 *)
  || ((8192 <=? r)%N && (r <=? 8202)%N)                  (* U+2000..U+200A *)
  || (r =? 8232)%N || (r =? 8233)%N                      (* U+2028, U+2029 *)
  || (r =? 8239)%N || (r =? 8287)%N                      (* U+202F, U+205F *)
  || (r =? 12288)%N.                                     (* U+3000 *)

End unicode.

(** ** Go's [strings] package (the functions the program calls) *)

Module strings.

Fixpoint drop (n : nat) (s : string) : string :=
  match n, s with
  | O, _ => s
  | S n', String _ s' => drop n' s'
  | S _, EmptyString => EmptyString
  end.

Fixpoint HasPrefix (s prefix : string) {struct prefix} : bool :=
  match prefix with
  | EmptyString => true
  | String p prefix' =>
      match s with
      | String c s' => Ascii.eqb c p && HasPrefix s' prefix'
      | EmptyString => false
      end
  end.

Definition TrimPrefix (s prefix : string) : string :=
  if HasPrefix s prefix then drop (String.length prefix) s else s.

Fixpoint HasSuffix (s suffix : string) : bool :=
  String.eqb s suffix ||
  match s with
  | String _ s' => HasSuffix s' suffix
  | EmptyString => false
  end.

Fixpoint TrimSuffix (s suffix : string) : string :=
  if String.eqb s suffix then EmptyString
  else match s with
       | String c s' =>
           if HasSuffix s' suffix then String c (TrimSuffix s' suffix) else s
       | EmptyString => EmptyString
       end.

Fixpoint Contains (s substr : string) : bool :=
  HasPrefix s substr ||
  match s with
  | String _ s' => Contains s' substr
  | EmptyString => false
  end.

(** [strings.Split(s, sep)] for a one-byte separator, the only kind the
    program uses: the pieces between the separators, empty pieces kept. *)
Fixpoint Split (s : string) (sep : ascii) : list string :=
  match s with
  | EmptyString => [EmptyString]
  | String c s' =>
      if Ascii.eqb c sep then EmptyString :: Split s' sep
      else match Split s' sep with
           | piece :: pieces => String c piece :: pieces
           | [] => [String c EmptyString]
           end
  end.

(** [strings.Join(elems, sep)] *)
Fixpoint Join (elems : list string) (sep : string) : string :=
  match elems with
  | [] => EmptyString
  | [e] => e
  | e :: rest => e +:+ sep +:+ Join rest sep
  end.

(** [s[:n]] *)
Fixpoint take (n : nat) (s : string) : string :=
  match n, s with
  | S n', String c s' => String c (take n' s')
  | _, _ => EmptyString
  end.

(** The width in bytes of the white-space rune at the head of the
    string, and of the one at its end; 0 when the rune there is no white
    space (an encoding that is not valid decodes to [RuneError], which is
    none). *)
Definition leadingSpace (s : string) : nat :=
  let '(r, n) := utf8.DecodeRuneInString s in
  if unicode.IsSpace r then n else 0.

Definition trailingSpace (s : string) : nat :=
  let '(r, n) := utf8.DecodeLastRuneInString s in
  if unicode.IsSpace r then n else 0.

(** [TrimLeftFunc(s, unicode.IsSpace)]: the runes are decoded from the
    head until one is no white space.  Every iteration drops a byte at
    least, so the fuel (the length) is enough. *)
Fixpoint trimLeftLoop (fuel : nat) (s : string) : string :=
  match fuel with
  | O => s
  | S fuel' =>
      match leadingSpace s with
      | O => s
      | n => trimLeftLoop fuel' (drop n s)
      end
  end.

Definition trimLeftSpace (s : string) : string :=
  trimLeftLoop (String.length s) s.

(** [TrimRightFunc(s, unicode.IsSpace)]: the runes are decoded from the
    end until one is no white space.  (The library then decodes that
    rune forwards to find where it ends: that is where the backward
    decoding found the white space to start, as no first byte of a
    white-space rune is a continuation byte.) *)
Fixpoint trimRightLoop (fuel : nat) (s : string) : string :=
  match fuel with
  | O => s
  | S fuel' =>
      match trailingSpace s with
      | O => s
      | n => trimRightLoop fuel' (take (String.length s - n) s)
      end
  end.

Definition trimRightSpace (s : string) : string :=
  trimRightLoop (String.length s) s.

(** [strings.TrimSpace]: the white space of Unicode is removed at both
    ends (the library's fast path for ASCII gives the same string). *)
Definition TrimSpace (s : string) : string :=
  trimRightSpace (trimLeftSpace s).

(** [strings.ToLower], for the letters of ASCII; the other bytes are
    kept (the program compares the result with words of ASCII only, see
    [confirmAction]). *)
Definition toLower (c : ascii) : ascii :=
  let n := N_of_ascii c in
  if (65 <=? n)%N && (n <=? 90)%N then ascii_of_N (n + 32) else c.

Fixpoint ToLower (s : string) : string :=
  match s with
  | String c s' => String (toLower c) (ToLower s')
  | EmptyString => EmptyString
  end.

(** [strings.SplitN(s, sep, 2)] for a one-byte separator: the string
    alone when it has no separator, else what is before the first
    separator and what is after it. *)
Fixpoint SplitN2 (s : string) (sep : ascii) : list string :=
  match s with
  | EmptyString => [EmptyString]
  | String c s' =>
      if Ascii.eqb c sep then [EmptyString; s']
      else match SplitN2 s' sep with
           | [before; after] => [String c before; after]
           | _ => [s]
           end
  end.

End strings.

(** ** Go's [path/filepath] package on Unix *)

Module filepath.

Definition Separator : ascii := "/".

Definition ToSlash (path : string) : string := path.
Definition FromSlash (path : string) : string := path.

Definition isEmpty (s : string) : bool :=
  match s with EmptyString => true | _ => false end.

(** [Base]: the last element of the path, trailing separators removed
    first; ["."] for the empty path and ["/"] for a path of separators
    only.  After the trailing separators are stripped the last element
    is the last non-empty piece of the path. *)
Definition Base (path : string) : string :=
  if isEmpty path then "."%string
  else match filter (fun e => negb (isEmpty e))
                    (rev (strings.Split path Separator)) with
       | e :: _ => e
       | [] => "/"%string
       end.

(** [Clean]: one step of the lexical clean-up per path element.  [out]
    is the stack of elements written so far, last one first. *)
Definition cleanStep (rooted : bool) (out : list string) (e : string)
  : list string :=
  if isEmpty e || String.eqb e "." then out
  else if String.eqb e ".." then
    match out with
    | top :: out' =>
        if String.eqb top ".." then e :: out else out'
    | [] => if rooted then out else [e]
    end
  else e :: out.

Definition Clean (path : string) : string :=
  if isEmpty path then "."%string
  else
    let rooted := strings.HasPrefix path "/" in
    let out := foldl (cleanStep rooted) [] (strings.Split path Separator) in
    let body := strings.Join (rev out) "/" in
    if rooted then ("/" +:+ body)%string
    else if isEmpty body then "."%string else body.

(** [Join(a, b)]: leading empty elements are dropped, the rest is joined
    with the separator and cleaned. *)
Definition Join (a b : string) : string :=
  if negb (isEmpty a) then Clean (a +:+ "/" +:+ b)
  else if negb (isEmpty b) then Clean b
  else EmptyString.

(** [Dir]: everything up to the last separator, cleaned. *)
Fixpoint upToLastSeparator (path : string) : string :=
  match path with
  | EmptyString => EmptyString
  | String c path' =>
      if strings.Contains path "/" then String c (upToLastSeparator path')
      else EmptyString
  end.

Definition Dir (path : string) : string := Clean (upToLastSeparator path).

(** [Rel]: the path of [targpath] relative to [basepath]; [None] when
    there is none.  Both paths are cleaned and compared element by
    element; the elements left in the base are climbed with [".."]. *)
Definition elements (path : string) : list string :=
  if isEmpty path then []
  else if String.eqb path "/" then [EmptyString]
  else strings.Split path Separator.

Fixpoint dropCommon (base targ : list string) : list string * list string :=
  match base, targ with
  | b :: base', t :: targ' =>
      if String.eqb t b then dropCommon base' targ' else (base, targ)
  | _, _ => (base, targ)
  end.

Definition Rel (basepath targpath : string) : option string :=
  let base := Clean basepath in
  let targ := Clean targpath in
  if String.eqb targ base then Some "."%string
  else
    let base := if String.eqb base "." then EmptyString else base in
    if negb (Bool.eqb (strings.HasPrefix base "/") (strings.HasPrefix targ "/"))
    then None
    else
      let '(b, t) := dropCommon (elements base) (elements targ) in
      match b, t with
      | [], _ => Some (strings.Join t "/")
      | up :: _, _ :: _ =>
          if String.eqb up ".." then None
          else Some (strings.Join (map (fun _ => ".."%string) b ++ t) "/")
      | _ :: _, [] => Some (strings.Join (map (fun _ => ".."%string) b) "/")
      end.

(** *** [Match]: shell-glob matching

    [scanChunk], [getEsc], [matchChunk] and [Match] are followed loop by
    loop; [?] and a bracket expression take one rune of the name, and
    the bounds of a range are runes.  Every loop consumes at least one
    byte of the pattern per iteration, so the fuel given by the entry
    points (the pattern's length) is never exhausted ([Match_fuel]
    below). *)

Fixpoint skipStars (pattern : string) : bool * string :=
  match pattern with
  | String c pattern' =>
      if Ascii.eqb c "*" then (true, snd (skipStars pattern'))
      else (false, pattern)
  | EmptyString => (false, pattern)
  end.

(** The scan loop of [scanChunk]: the index [i] where it stops, as a
    number of bytes; it stops at the first ["*"] that is outside a
    bracket expression, and an escaped byte is skipped. *)
Fixpoint scanIndex (inrange : bool) (pattern : string) (skip : bool) : nat :=
  match pattern with
  | EmptyString => 0
  | String c pattern' =>
      if skip then S (scanIndex inrange pattern' false)
      else if Ascii.eqb c "\" then S (scanIndex inrange pattern' true)
      else if Ascii.eqb c "[" then S (scanIndex true pattern' false)
      else if Ascii.eqb c "]" then S (scanIndex false pattern' false)
      else if Ascii.eqb c "*" && negb inrange then 0
      else S (scanIndex inrange pattern' false)
  end.

Fixpoint take (n : nat) (s : string) : string :=
  match n, s with
  | S n', String c s' => String c (take n' s')
  | _, _ => EmptyString
  end.

(** [scanChunk]: (star, chunk, rest) *)
Definition scanChunk (pattern : string) : bool * string * string :=
  let '(star, pattern) := skipStars pattern in
  let i := scanIndex false pattern false in
  (star, take i pattern, strings.drop i pattern).

(** [getEsc]: a possibly escaped rune of a bracket expression; [None]
    is [ErrBadPattern]. *)
Definition getEsc (chunk : string) : option (N * string) :=
  match chunk with
  | EmptyString => None
  | String c chunk' =>
      if Ascii.eqb c "-" || Ascii.eqb c "]" then None
      else
        let chunk := if Ascii.eqb c "\" then chunk' else chunk in
        if isEmpty chunk then None
        else
          let '(r, n) := utf8.DecodeRuneInString chunk in
          let nchunk := strings.drop n chunk in
          if ((r =? utf8.RuneError)%N && (n =? 1)%nat) || isEmpty nchunk
          then None
          else Some (r, nchunk)
  end.

Definition inRange (lo r hi : N) : bool := (lo <=? r)%N && (r <=? hi)%N.

Definition startsWith (c : ascii) (s : string) : bool :=
  match s with
  | String d _ => Ascii.eqb d c
  | EmptyString => false
  end.

(** The "parse all ranges" loop of a bracket expression: whether [r] is
    in one of the ranges, and the chunk after the closing bracket. *)
Fixpoint parseRanges (fuel : nat) (chunk : string) (r : N)
         (matched : bool) (nrange : nat) : option (bool * string) :=
  match fuel with
  | O => None
  | S fuel' =>
      if startsWith "]" chunk && (0 <? nrange)%nat then
        Some (matched, strings.drop 1 chunk)
      else
        match getEsc chunk with
        | None => None
        | Some (lo, chunk1) =>
            if startsWith "-" chunk1 then
              match getEsc (strings.drop 1 chunk1) with
              | None => None
              | Some (hi, chunk2) =>
                  parseRanges fuel' chunk2 r
                              (matched || inRange lo r hi) (S nrange)
              end
            else
              parseRanges fuel' chunk1 r
                          (matched || inRange lo r lo) (S nrange)
        end
  end.

Inductive chunkResult :=
| ChunkErr                    (* err = ErrBadPattern *)
| ChunkFail                   (* ok = false, err = nil *)
| ChunkOk (rest : string).    (* ok = true *)

(** One byte of the name against one literal byte of the chunk. *)
Definition literal (c : ascii) (s : string) (failed : bool)
  : string * bool :=
  if failed then (s, true)
  else match s with
       | String d s' => (s', negb (Ascii.eqb c d))
       | EmptyString => (s, true)
       end.

Fixpoint matchChunkLoop (fuel : nat) (chunk s : string) (failed : bool)
  : chunkResult :=
  match chunk with
  | EmptyString => if failed then ChunkFail else ChunkOk s
  | String c chunk' =>
      match fuel with
      | O => ChunkErr
      | S fuel' =>
          let failed := failed || isEmpty s in
          if Ascii.eqb c "[" then
            let '(r, s) :=
              if failed then (0%N, s)
              else
                let '(r, n) := utf8.DecodeRuneInString s in
                (r, strings.drop n s) in
            let negated := startsWith "^" chunk' in
            let chunk1 := if negated then strings.drop 1 chunk' else chunk' in
            match parseRanges fuel' chunk1 r false 0 with
            | None => ChunkErr
            | Some (matched, chunk2) =>
                matchChunkLoop fuel' chunk2 s
                               (failed || Bool.eqb matched negated)
            end
          else if Ascii.eqb c "?" then
            match s with
            | String d _ =>
                if failed then matchChunkLoop fuel' chunk' s true
                else
                  let '(_, n) := utf8.DecodeRuneInString s in
                  matchChunkLoop fuel' chunk' (strings.drop n s)
                                 (Ascii.eqb d Separator)
            | EmptyString => matchChunkLoop fuel' chunk' s true
            end
          else if Ascii.eqb c "\" then
            match chunk' with
            | EmptyString => ChunkErr
            | String e chunk'' =>
                let '(s, failed) := literal e s failed in
                matchChunkLoop fuel' chunk'' s failed
            end
          else
            let '(s, failed) := literal c s failed in
            matchChunkLoop fuel' chunk' s failed
      end
  end.

Definition matchChunk (chunk s : string) : chunkResult :=
  matchChunkLoop (String.length chunk) chunk s false.

(** The loop that looks for a match of the chunk after skipping [i+1]
    bytes of the name, never skipping a separator.  [last] is
    [len(pattern) == 0]. *)
Fixpoint skipLoop (chunk : string) (last : bool) (name : string)
  : option chunkResult :=
  match name with
  | EmptyString => None
  | String c name' =>
      if Ascii.eqb c Separator then None
      else match matchChunk chunk name' with
           | ChunkOk t =>
               if last && negb (isEmpty t) then skipLoop chunk last name'
               else Some (ChunkOk t)
           | ChunkErr => Some ChunkErr
           | ChunkFail => skipLoop chunk last name'
           end
  end.

(** The check that the remainder of the pattern is well formed, made
    before [Match] returns false: [true] is [ErrBadPattern]. *)
Fixpoint badRemainder (fuel : nat) (pattern : string) : bool :=
  match fuel with
  | O => false
  | S fuel' =>
      if isEmpty pattern then false
      else
        let '(_, chunk, rest) := scanChunk pattern in
        match matchChunk chunk EmptyString with
        | ChunkErr => true
        | _ => badRemainder fuel' rest
        end
  end.

(** (matched, err) with [err = true] for [ErrBadPattern]. *)
Fixpoint MatchLoop (fuel : nat) (pattern name : string) : bool * bool :=
  if isEmpty pattern then (isEmpty name, false)
  else
    match fuel with
    | O => (false, true)
    | S fuel' =>
        let '(star, chunk, rest) := scanChunk pattern in
        if star && isEmpty chunk then
          (negb (strings.Contains name "/"), false)
        else
          let giveUp := (false, badRemainder fuel' rest) in
          let skip :=
            if star then
              match skipLoop chunk (isEmpty rest) name with
              | Some (ChunkOk t) => MatchLoop fuel' rest t
              | Some ChunkErr => (false, true)
              | _ => giveUp
              end
            else giveUp in
          match matchChunk chunk name with
          | ChunkOk t =>
              if isEmpty t || negb (isEmpty rest) then MatchLoop fuel' rest t
              else skip
          | ChunkErr => (false, true)
          | ChunkFail => skip
          end
    end.

Definition Match (pattern name : string) : bool * bool :=
  MatchLoop (String.length pattern) pattern name.

End filepath.

(** ** Data model *)

(** [Config]: the application configuration. *)
Record Config := {
  RemoteServer : string;
  SSHUsername : string;
  SSHPassword : string;
  RemoteFolder : string;
  LocalFolder : string;
  DockerImageName : string;
  DockerBuildArgs : string;
  DockerRunArgs : string;
  IgnorePatterns : list string;
}.

(** [os.FileInfo], with the four methods the program calls. *)
Record FileInfo := {
  Name : string;
  IsDir : bool;
  Size : Z;
  ModTime : Z;
}.

(** ** The ignore matcher *)

(** [matchPattern]: glob matching when the pattern has a ["*"], equality
    otherwise; the error of [filepath.Match] is dropped. *)
Definition matchPattern (str pattern : string) : bool :=
  if strings.Contains pattern "*" then
    fst (filepath.Match pattern str)
  else String.eqb str pattern.

(** The loop over [pathParts] in [shouldIgnore]. *)
Fixpoint anyPartMatches (pathParts : list string) (pattern : string) : bool :=
  match pathParts with
  | [] => false
  | part :: pathParts' =>
      if String.eqb part pattern || matchPattern part pattern then true
      else anyPartMatches pathParts' pattern
  end.

(** The clean-up at the head of the loop body: the pattern without its
    leading ["/"] and ["./"] and without its trailing ["/"], and whether
    it had that trailing ["/"]. *)
Definition cleanPattern (pattern : string) : bool * string :=
  let pattern := strings.TrimPrefix pattern "/" in
  let pattern := strings.TrimPrefix pattern "./" in
  let isDirectoryPattern := strings.HasSuffix pattern "/" in
  let pattern :=
    if isDirectoryPattern then strings.TrimSuffix pattern "/" else pattern in
  (isDirectoryPattern, pattern).

(** One iteration of the loop over the patterns: [true] when the
    iteration returns true. *)
Definition patternIgnores (baseName relPathSlash : string) (isDir : bool)
           (pattern : string) : bool :=
  let '(isDirectoryPattern, pattern) := cleanPattern pattern in
  if (isDirectoryPattern || negb (strings.Contains pattern "*"))
     && ((isDir && (String.eqb baseName pattern || matchPattern baseName pattern))
         || anyPartMatches (strings.Split relPathSlash "/") pattern)
  then true
  else strings.Contains pattern "*" && matchPattern baseName pattern.

Fixpoint ignoreLoop (baseName relPathSlash : string) (isDir : bool)
         (patterns : list string) : bool :=
  match patterns with
  | [] => false
  | pattern :: patterns' =>
      if patternIgnores baseName relPathSlash isDir pattern then true
      else ignoreLoop baseName relPathSlash isDir patterns'
  end.

(** [shouldIgnore]: whether a file or directory is ignored by the
    configured patterns. *)
Definition shouldIgnore (config : Config) (relPath : string) (info : FileInfo)
  : bool :=
  let baseName := filepath.Base relPath in
  let relPathSlash := filepath.ToSlash relPath in
  ignoreLoop baseName relPathSlash (IsDir info) (IgnorePatterns config).

(** ** The change detector *)

Module time.
(** [time.Second] as a [Duration], in nanoseconds. *)
Definition Second : Z := 1000000000.
(** [t.Add(d)] *)
Definition Add (t d : Z) : Z := (t + d)%Z.
(** [t.After(u)]: the instant [t] is strictly after [u]. *)
Definition After (t u : Z) : bool := (u <? t)%Z.
End time.

(** The per-item check at the head of the second pass of [SyncFiles] and
    [PullFiles]: [stat] is the destination's [Stat], [None] when it
    returns an error; [info] is the source entry. *)
Definition needsUpdate (stat : option FileInfo) (info : FileInfo) : bool :=
  match stat with
  | Some destInfo =>
      if (Size destInfo =? Size info)%Z
         && time.After (ModTime destInfo)
                       (time.Add (ModTime info) (- time.Second))
      then false
      else true
  | None => true
  end.

(** ** Remote commands over SSH *)

(** What the remote host does with one command: no session (or no pipe,
    or no start: the command never runs), or the command runs to its end
    with an output and possibly an error (a non-zero exit, a lost
    connection). *)
Inductive outcome :=
| SessionFails
| Exits (output : string) (failed : bool).

(** The calls of the four runners, in the order they happen. *)
Inductive event :=
| Issued (command : string)                   (* a runner is entered *)
| Completed (command : string) (err : bool).  (* it returns, [err != nil] *)

(** The remote host: the outcome of a command given all that happened
    before it. *)
Definition Host : Type := list event -> string -> outcome.

(** Computations that talk to the remote host: the state is the trace of
    the calls made so far. *)
Definition Remote (A : Type) : Type := list event -> A * list event.

#[global] Instance Remote_ret : MRet Remote :=
  fun A (a : A) trace => (a, trace).

#[global] Instance Remote_bind : MBind Remote :=
  fun A B (k : A -> Remote B) (m : Remote A) trace =>
    let '(a, trace) := m trace in k a trace.

Definition failedOf (o : outcome) : bool :=
  match o with
  | SessionFails => true
  | Exits _ failed => failed
  end.

Definition outputOf (o : outcome) : string :=
  match o with
  | SessionFails => EmptyString
  | Exits output _ => output
  end.

(** A session is opened and the command is run in it to its end. *)
Definition session (host : Host) (command : string) : Remote outcome :=
  fun trace =>
    let trace := trace ++ [Issued command] in
    let o := host trace command in
    (o, trace ++ [Completed command (failedOf o)]).

(** [executeRemoteCommandQuiet]: the error of the command. *)
Definition executeRemoteCommandQuiet (host : Host) (command : string)
  : Remote bool :=
  o ← session host command;
  mret (failedOf o).

(** [executeRemoteCommandWithOutput]: the output and the error. *)
Definition executeRemoteCommandWithOutput (host : Host) (command : string)
           (showErrors : bool) : Remote (string * bool) :=
  o ← session host command;
  mret (outputOf o, failedOf o).

(** [executeRemoteCommandWithProgress]: the output is shown while the
    command runs; the error of [session.Wait()]. *)
Definition executeRemoteCommandWithProgress (host : Host) (command : string)
  : Remote bool :=
  o ← session host command;
  mret (failedOf o).

(** [getRemoteHomeDir]: the trimmed output of [echo $HOME]. *)
Definition getRemoteHomeDir (host : Host) : Remote (option string) :=
  o ← session host "echo $HOME";
  mret (if failedOf o then None else Some (strings.TrimSpace (outputOf o))).

(** The expansion of a leading ["~/"] of the remote folder, at the head
    of [SyncFiles], [PullFiles] and [ExecuteDockerCommands]. *)
Definition expandRemote (config : Config) (host : Host)
  : Remote (option string) :=
  let remotePath := RemoteFolder config in
  if strings.HasPrefix remotePath "~/" then
    home ← getRemoteHomeDir host;
    match home with
    | None => mret None
    | Some homeDir =>
        mret (Some (filepath.Join homeDir (strings.drop 2 remotePath)))
    end
  else mret (Some remotePath).

(** ** The two endpoints *)

(** The tree the scan reads: a regular file, a directory with its
    entries in the order the walk lists them ([None] when the directory
    cannot be read), or a name whose [Lstat] fails. *)
#[warnings="-register-all"]
Inductive tree :=
| File (name : string) (size modTime : Z)
| Dir (name : string) (size modTime : Z) (entries : option (list tree))
| Broken (name : string).

Definition nameOf (t : tree) : string :=
  match t with
  | File name _ _ | Dir name _ _ _ | Broken name => name
  end.

Definition statOf (t : tree) : option FileInfo :=
  match t with
  | File name size modTime =>
      Some {| Name := name; IsDir := false; Size := size; ModTime := modTime |}
  | Dir name size modTime _ =>
      Some {| Name := name; IsDir := true; Size := size; ModTime := modTime |}
  | Broken _ => None
  end.

Definition isDirNode (t : tree) : bool :=
  match t with Dir _ _ _ _ => true | _ => false end.

(** How the copy of one file goes. *)
Inductive copyOutcome :=
| OpenFails                    (* the source cannot be opened *)
| StatFails                    (* the opened source cannot be stat'ed *)
| CreateFails                  (* the destination cannot be created *)
| CopyFails (written : Z)      (* [io.Copy] fails after [written] bytes *)
| Copied (written : Z).        (* the source's bytes are all copied *)

(** What the endpoints decide during one run. *)
Record Env := {
  host : Host;                   (* the remote host's answers to commands *)
  mkdirFails : string -> bool;   (* [MkdirAll] of an absent path fails *)
  dirSize : string -> Z;         (* the size reported for a new directory *)
  clock : string -> Z;           (* the modification time the destination
                                    gives to what is written at a path *)
  copy : string -> copyOutcome;  (* by source path *)
}.

(** The destination's files and directories by path.  [Stat] is the
    lookup: it fails exactly on an absent path. *)
Abbreviation fsmap := (gmap string FileInfo).

Definition newDir (env : Env) (path : string) : FileInfo :=
  {| Name := filepath.Base path; IsDir := true;
     Size := dirSize env path; ModTime := clock env path |}.

Definition newFile (env : Env) (path : string) (written : Z) : FileInfo :=
  {| Name := filepath.Base path; IsDir := false;
     Size := written; ModTime := clock env path |}.

(** [Stat]: the entry at the path, [None] when [Stat] returns an error.
    A path and its cleaned form name the same entry. *)
Definition Stat (fs : fsmap) (path : string) : option FileInfo :=
  fs !! filepath.Clean path.

(** [MkdirAll]: nothing to do for a directory, an error for a file, a new
    directory otherwise.  The second component is [err != nil].  The
    ancestors it creates on the way are not tracked: the scan makes a
    directory before it makes anything below it.  Nor is the
    modification time that a file system gives to the directory in
    which an entry is made: the properties below are about the presence
    and the kind of the entries and about the metadata of files. *)
Definition MkdirAll (env : Env) (path : string) (fs : fsmap) : fsmap * bool :=
  let path := filepath.Clean path in
  match fs !! path with
  | Some info => (fs, negb (IsDir info))
  | None =>
      if mkdirFails env path then (fs, true)
      else (<[path := newDir env path]> fs, false)
  end.

(** The destination is created (truncated) and receives [written] bytes;
    a directory cannot be opened for writing.  [true] is an error.  The
    other failures of the creation (no parent directory, a file where
    the parent should be) are the outcome [CreateFails] of the copy. *)
Definition writeFile (env : Env) (dst : string) (written : Z) (fs : fsmap)
  : fsmap * bool :=
  let dst := filepath.Clean dst in
  match fs !! dst with
  | Some {| IsDir := true |} => (fs, true)
  | _ => (<[dst := newFile env dst written]> fs, false)
  end.

(** Open and stat the source, create the destination, [io.Copy]. *)
Definition createAndCopy (env : Env) (src dst : string) (fs : fsmap)
  : fsmap * bool :=
  match copy env src with
  | OpenFails | StatFails | CreateFails => (fs, true)
  | CopyFails written => (fst (writeFile env dst written fs), true)
  | Copied written => writeFile env dst written fs
  end.

(** [uploadFile]: open and stat the local file, create the remote one,
    copy; the failure of [Chmod] is ignored. *)
Definition uploadFile (env : Env) (localPath remotePath : string)
           (remote : fsmap) : fsmap * bool :=
  createAndCopy env localPath remotePath remote.

(** [downloadFile]: make the local directory, open and stat the remote
    file, create the local one, copy; the failure of [Chmod] is ignored. *)
Definition downloadFile (env : Env) (remotePath localPath : string)
           (loc : fsmap) : fsmap * bool :=
  let dir := filepath.Dir localPath in
  let '(loc, err) := MkdirAll env dir loc in
  if err then (loc, true)
  else createAndCopy env remotePath localPath loc.

(** ** [filepath.Walk] *)

(** What a [WalkFunc] returns: [nil], [filepath.SkipDir] or another
    error. *)
Inductive walkError := Nil | SkipDir | Abort.

(** A [WalkFunc] over a state [S]: path, info ([None] for nil), whether
    [err != nil]. *)
Definition WalkFunc (S : Type) : Type :=
  string -> option FileInfo -> bool -> S -> S * walkError.

Section Walk.
Context {S : Type} (walkFn : WalkFunc S).

(** [walk]: the function is called on the node, with the error of
    reading it when it is a directory; the entries of a directory that
    was read are then walked in order.  [SkipDir] from a directory skips
    that directory, [SkipDir] from a file skips the rest of its parent. *)
Fixpoint walk (path : string) (t : tree) (st : S) : S * walkError :=
  match t with
  | File _ _ _ => walkFn path (statOf t) false st
  | Broken _ => walkFn path None true st
  | Dir _ _ _ None => walkFn path (statOf t) true st
  | Dir _ _ _ (Some names) =>
      let '(st, err1) := walkFn path (statOf t) false st in
      match err1 with
      | Nil =>
          (fix loop (names : list tree) (st : S) : S * walkError :=
             match names with
             | [] => (st, Nil)
             | child :: names' =>
                 let filename := filepath.Join path (nameOf child) in
                 match child with
                 | Broken _ =>
                     let '(st, err) := walkFn filename None true st in
                     match err with
                     | Abort => (st, err)
                     | _ => loop names' st
                     end
                 | _ =>
                     let '(st, err) := walk filename child st in
                     match err with
                     | Nil => loop names' st
                     | SkipDir =>
                         if isDirNode child then loop names' st
                         else (st, err)
                     | Abort => (st, err)
                     end
                 end
             end) names st
      | _ => (st, err1)
      end
  end.

(** The loop of [walk] over the entries of a directory, on its own. *)
Definition walkEntries (path : string) : list tree -> S -> S * walkError :=
  fix loop (names : list tree) (st : S) : S * walkError :=
    match names with
    | [] => (st, Nil)
    | child :: names' =>
        let filename := filepath.Join path (nameOf child) in
        match child with
        | Broken _ =>
            let '(st, err) := walkFn filename None true st in
            match err with
            | Abort => (st, err)
            | _ => loop names' st
            end
        | _ =>
            let '(st, err) := walk filename child st in
            match err with
            | Nil => loop names' st
            | SkipDir =>
                if isDirNode child then loop names' st
                else (st, err)
            | Abort => (st, err)
            end
        end
    end.

(** [Walk]: a [SkipDir] that reaches the root ends the walk without an
    error. *)
Definition Walk (root : string) (t : tree) (st : S) : S * walkError :=
  let '(st, err) := walk root t st in
  match err with
  | SkipDir => (st, Nil)
  | _ => (st, err)
  end.
End Walk.

(** ** Push: [SyncFiles] *)

Inductive SyncError :=
| ErrLocalFolder            (* local folder does not exist or cannot be accessed *)
| ErrNotDirectory           (* local path is not a directory *)
| ErrRemoteHome             (* failed to get remote home directory *)
| ErrScan                   (* failed to scan local directory *)
| ErrUpload (localPath : string)
| ErrCreateLocal            (* failed to create local directory *)
| ErrDownload (remotePath : string).

Inductive result (A : Type) :=
| Ok (a : A)
| Err (e : SyncError).
Arguments Ok {A} a.
Arguments Err {A} e.

(** An element of [filesToSync] / [filesToPull]. *)
Record SyncItem := {
  localPath : string;
  remotePath : string;
  relPath : string;
  info : FileInfo;
}.

(** The counts a run logs when it ends: the files checked
    ([len(filesToSync)]), uploaded or downloaded, already up to date, and
    the files and directories ignored. *)
Record SyncReport := {
  checked : nat;
  transferred : nat;
  skipped : nat;
  ignored : nat;
}.

(** What the first pass accumulates. *)
Record Scan := {
  files : list SyncItem;
  ignoredCount : nat;
  dest : fsmap;
}.

(** The function [SyncFiles] gives to [filepath.Walk]. *)
Definition pushVisit (config : Config) (env : Env) (remotePath : string)
  : WalkFunc Scan :=
  fun localPath info err st =>
    if err then (st, Abort)
    else
      match filepath.Rel (LocalFolder config) localPath, info with
      | None, _ => (st, Abort)
      | Some relPath, None => (st, Abort)   (* info is nil only with an error *)
      | Some relPath, Some info =>
          if String.eqb relPath "." then (st, Nil)
          else if shouldIgnore config relPath info then
            let st := {| files := files st;
                         ignoredCount := ignoredCount st + 1;
                         dest := dest st |} in
            if IsDir info then (st, SkipDir) else (st, Nil)
          else
            let remoteFilePath :=
              filepath.ToSlash (filepath.Join remotePath relPath) in
            if negb (IsDir info) then
              ({| files := files st ++
                           [{| localPath := localPath;
                               remotePath := remoteFilePath;
                               relPath := relPath;
                               info := info |}];
                  ignoredCount := ignoredCount st;
                  dest := dest st |}, Nil)
            else
              ({| files := files st;
                  ignoredCount := ignoredCount st;
                  dest := fst (MkdirAll env remoteFilePath (dest st)) |}, Nil)
      end.

(** The second pass of [SyncFiles]: the loop over [filesToSync]. *)
Fixpoint pushLoop (env : Env) (filesToSync : list SyncItem)
         (skippedCount syncedCount : nat) (remote : fsmap)
  : result (nat * nat) * fsmap :=
  match filesToSync with
  | [] => (Ok (skippedCount, syncedCount), remote)
  | file :: filesToSync' =>
      if needsUpdate (Stat remote (remotePath file)) (info file) then
        let '(remote, err) :=
          uploadFile env (localPath file) (remotePath file) remote in
        if err then (Err (ErrUpload (localPath file)), remote)
        else pushLoop env filesToSync' skippedCount (syncedCount + 1) remote
      else pushLoop env filesToSync' (skippedCount + 1) syncedCount remote
  end.

(** The first pass of [SyncFiles]: the walk of the local folder. *)
Definition scanLocal (config : Config) (env : Env) (remotePath : string)
           (localTree : tree) (remote : fsmap) : Scan * walkError :=
  Walk (pushVisit config env remotePath) (LocalFolder config) localTree
       {| files := []; ignoredCount := 0; dest := remote |}.

(** [SyncFiles]: the local folder [localTree] is pushed to the remote file
    system [remote]. *)
Definition SyncFiles (config : Config) (env : Env) (localTree : tree)
           (remote : fsmap) : result SyncReport * fsmap :=
  match statOf localTree with
  | None => (Err ErrLocalFolder, remote)
  | Some localInfo =>
      if negb (IsDir localInfo) then (Err ErrNotDirectory, remote)
      else
        match fst (expandRemote config (host env) []) with
        | None => (Err ErrRemoteHome, remote)
        | Some remotePath =>
            let remote := fst (MkdirAll env remotePath remote) in
            let '(st, err) :=
              scanLocal config env remotePath localTree remote in
            match err with
            | Nil =>
                match files st with
                | [] =>
                    (Ok {| checked := 0; transferred := 0; skipped := 0;
                           ignored := ignoredCount st |}, dest st)
                | filesToSync =>
                    match pushLoop env filesToSync 0 0 (dest st) with
                    | (Ok (skippedCount, syncedCount), remote) =>
                        (Ok {| checked := length filesToSync;
                               transferred := syncedCount;
                               skipped := skippedCount;
                               ignored := ignoredCount st |}, remote)
                    | (Err e, remote) => (Err e, remote)
                    end
                end
            | _ => (Err ErrScan, dest st)
            end
        end
  end.

(** ** Pull: [PullFiles] *)

(** What one [Step] of the SFTP walker makes current: [Path()], [Stat()]
    ([None] for nil) and whether [Err()] is set. *)
Record walkItem := {
  itemPath : string;
  itemStat : option FileInfo;
  itemErr : bool;
}.

(** The items the walker steps through when [SkipDir] is never called, as
    in [PullFiles]: a node comes before what is below it, the entries of
    a directory in the order they are listed; a directory that cannot be
    read comes a second time, with its error. *)
Fixpoint walkerItems (path : string) (t : tree) : list walkItem :=
  match t with
  | File _ _ _ =>
      [{| itemPath := path; itemStat := statOf t; itemErr := false |}]
  | Broken _ =>
      [{| itemPath := path; itemStat := None; itemErr := true |}]
  | Dir _ _ _ None =>
      [{| itemPath := path; itemStat := statOf t; itemErr := false |};
       {| itemPath := path; itemStat := statOf t; itemErr := true |}]
  | Dir _ _ _ (Some names) =>
      {| itemPath := path; itemStat := statOf t; itemErr := false |}
      :: flat_map (fun child =>
                     walkerItems (filepath.Join path (nameOf child)) child)
                  names
  end.

(** The body of the loop [for walker.Step()] of [PullFiles]. *)
Definition pullVisit (config : Config) (env : Env) (remotePath : string)
           (item : walkItem) (st : Scan) : Scan :=
  if itemErr item then st
  else
    match filepath.Rel remotePath (itemPath item), itemStat item with
    | None, _ => st
    | Some _, None => st                    (* stat is nil only with an error *)
    | Some relPath, Some stat =>
        let relPath := filepath.ToSlash relPath in
        if String.eqb relPath "." then st
        else if shouldIgnore config relPath stat then
          {| files := files st;
             ignoredCount := ignoredCount st + 1;
             dest := dest st |}
        else
          let localPath :=
            filepath.Join (LocalFolder config) (filepath.FromSlash relPath) in
          if negb (IsDir stat) then
            {| files := files st ++
                        [{| localPath := localPath;
                            remotePath := itemPath item;
                            relPath := relPath;
                            info := stat |}];
               ignoredCount := ignoredCount st;
               dest := dest st |}
          else
            {| files := files st;
               ignoredCount := ignoredCount st;
               dest := fst (MkdirAll env localPath (dest st)) |}
    end.

Definition pullScan (config : Config) (env : Env) (remotePath : string)
           (items : list walkItem) (st : Scan) : Scan :=
  foldl (fun st item => pullVisit config env remotePath item st) st items.

(** The second pass of [PullFiles]: the loop over [filesToPull]. *)
Fixpoint pullLoop (env : Env) (filesToPull : list SyncItem)
         (downloadedCount skippedCount : nat) (loc : fsmap)
  : result (nat * nat) * fsmap :=
  match filesToPull with
  | [] => (Ok (downloadedCount, skippedCount), loc)
  | file :: filesToPull' =>
      if needsUpdate (Stat loc (localPath file)) (info file) then
        let '(loc, err) :=
          downloadFile env (remotePath file) (localPath file) loc in
        if err then (Err (ErrDownload (remotePath file)), loc)
        else pullLoop env filesToPull' (downloadedCount + 1) skippedCount loc
      else pullLoop env filesToPull' downloadedCount (skippedCount + 1) loc
  end.

(** [PullFiles]: the remote folder [remoteTree] is pulled into the local
    file system [loc]. *)
Definition PullFiles (config : Config) (env : Env) (remoteTree : tree)
           (loc : fsmap) : result SyncReport * fsmap :=
  match fst (expandRemote config (host env) []) with
  | None => (Err ErrRemoteHome, loc)
  | Some remotePath =>
      let remotePath := filepath.ToSlash remotePath in
      let '(loc, err) := MkdirAll env (LocalFolder config) loc in
      if err then (Err ErrCreateLocal, loc)
      else
        let st :=
          pullScan config env remotePath (walkerItems remotePath remoteTree)
                   {| files := []; ignoredCount := 0; dest := loc |} in
        match files st with
        | [] =>
            (Ok {| checked := 0; transferred := 0; skipped := 0;
                   ignored := ignoredCount st |}, dest st)
        | filesToPull =>
            match pullLoop env filesToPull 0 0 (dest st) with
            | (Ok (downloadedCount, skippedCount), loc) =>
                (Ok {| checked := length filesToPull;
                       transferred := downloadedCount;
                       skipped := skippedCount;
                       ignored := ignoredCount st |}, loc)
            | (Err e, loc) => (Err e, loc)
            end
        end
  end.

(** ** The deployment sequencer: [ExecuteDockerCommands] *)

Inductive DeployError :=
| ErrHome           (* failed to get remote home directory *)
| ErrBuild          (* failed to build Docker image *)
| ErrRun.           (* failed to run Docker container *)

Definition checkCommand (remotePath : string) : string :=
  "test -f " +:+ remotePath +:+
  "/Dockerfile && echo 'Dockerfile found' || echo 'Dockerfile NOT found'".

Definition stopCommand (config : Config) : string :=
  "sudo docker ps -aq --filter ancestor=" +:+ DockerImageName config +:+
  " | xargs -r sudo docker stop | xargs -r sudo docker rm".

Definition rmiCommand (config : Config) : string :=
  "sudo docker rmi -f " +:+ DockerImageName config +:+ " 2>/dev/null || true".

Definition buildCommand (config : Config) (remotePath : string) : string :=
  let buildArgs := DockerBuildArgs config in
  let buildArgs := if filepath.isEmpty buildArgs then "-t"%string else buildArgs in
  "cd " +:+ remotePath +:+ " && sudo docker build " +:+ buildArgs +:+ " " +:+
  DockerImageName config +:+ " .".

Definition runCommand (config : Config) : string :=
  let runArgs := DockerRunArgs config in
  let runArgs := if filepath.isEmpty runArgs then "-d"%string else runArgs in
  "sudo docker run " +:+ runArgs +:+ " " +:+ DockerImageName config.

(** [ExecuteDockerCommands]: [None] is a nil error. *)
Definition ExecuteDockerCommands (config : Config) (host : Host)
  : Remote (option DeployError) :=
  expanded ← expandRemote config host;
  match expanded with
  | None => mret (Some ErrHome)
  | Some remotePath =>
      let remotePath := filepath.ToSlash remotePath in
      (* Check if Dockerfile exists in remote directory: a warning only *)
      _ ← executeRemoteCommandWithOutput host (checkCommand remotePath) false;
      (* Step 1: Stop and remove running containers using the image *)
      _ ← executeRemoteCommandQuiet host (stopCommand config);
      (* Step 2: Remove the Docker image *)
      _ ← executeRemoteCommandQuiet host (rmiCommand config);
      (* Step 3: Build the new Docker image *)
      err ← executeRemoteCommandWithProgress host
               (buildCommand config remotePath);
      if err : bool then mret (Some ErrBuild)
      else
        (* Step 4: Run the new container *)
        '(_, err) ← executeRemoteCommandWithOutput host (runCommand config)
                                                    true;
        if err : bool then mret (Some ErrRun) else mret None
  end.

Local Close Scope char_scope.

(** ** The configuration file: [LoadConfig] *)

Inductive ConfigError :=
| ErrOpenConfig        (* failed to open config file *)
| ErrReadConfig        (* error reading config file *)
| ErrMissingFields.    (* missing required configuration fields *)

Inductive loaded :=
| Loaded (config : Config)
| LoadFailed (e : ConfigError).

(** What the scanner delivers for an open file: the lines it scans
    before it stops, and whether it stopped on an error
    ([scanner.Err() != nil]). *)
Record ConfigFile := {
  scanned : list string;
  scanError : bool;
}.

(** [&Config{}] *)
Definition emptyConfig : Config :=
  {| RemoteServer := ""; SSHUsername := ""; SSHPassword := "";
     RemoteFolder := ""; LocalFolder := ""; DockerImageName := "";
     DockerBuildArgs := ""; DockerRunArgs := ""; IgnorePatterns := [] |}.

(** The loop over the comma-separated patterns of an [IGNORE] value. *)
Definition appendPatterns (patterns : list string) (value : string)
  : list string :=
  foldl (fun patterns pattern =>
           let pattern := strings.TrimSpace pattern in
           if filepath.isEmpty pattern then patterns
           else patterns ++ [pattern])
        patterns (strings.Split value ","%char).

(** The [switch key] of [LoadConfig]. *)
Definition setKey (config : Config) (key value : string) : Config :=
  if String.eqb key "REMOTE_SERVER" then
    {| RemoteServer := value; SSHUsername := SSHUsername config;
       SSHPassword := SSHPassword config; RemoteFolder := RemoteFolder config;
       LocalFolder := LocalFolder config;
       DockerImageName := DockerImageName config;
       DockerBuildArgs := DockerBuildArgs config;
       DockerRunArgs := DockerRunArgs config;
       IgnorePatterns := IgnorePatterns config |}
  else if String.eqb key "SSH_USERNAME" then
    {| RemoteServer := RemoteServer config; SSHUsername := value;
       SSHPassword := SSHPassword config; RemoteFolder := RemoteFolder config;
       LocalFolder := LocalFolder config;
       DockerImageName := DockerImageName config;
       DockerBuildArgs := DockerBuildArgs config;
       DockerRunArgs := DockerRunArgs config;
       IgnorePatterns := IgnorePatterns config |}
  else if String.eqb key "SSH_PASSWORD" then
    {| RemoteServer := RemoteServer config; SSHUsername := SSHUsername config;
       SSHPassword := value; RemoteFolder := RemoteFolder config;
       LocalFolder := LocalFolder config;
       DockerImageName := DockerImageName config;
       DockerBuildArgs := DockerBuildArgs config;
       DockerRunArgs := DockerRunArgs config;
       IgnorePatterns := IgnorePatterns config |}
  else if String.eqb key "REMOTE_FOLDER" then
    {| RemoteServer := RemoteServer config; SSHUsername := SSHUsername config;
       SSHPassword := SSHPassword config; RemoteFolder := value;
       LocalFolder := LocalFolder config;
       DockerImageName := DockerImageName config;
       DockerBuildArgs := DockerBuildArgs config;
       DockerRunArgs := DockerRunArgs config;
       IgnorePatterns := IgnorePatterns config |}
  else if String.eqb key "LOCAL_FOLDER" then
    {| RemoteServer := RemoteServer config; SSHUsername := SSHUsername config;
       SSHPassword := SSHPassword config; RemoteFolder := RemoteFolder config;
       LocalFolder := value;
       DockerImageName := DockerImageName config;
       DockerBuildArgs := DockerBuildArgs config;
       DockerRunArgs := DockerRunArgs config;
       IgnorePatterns := IgnorePatterns config |}
  else if String.eqb key "DOCKER_IMAGE_NAME" then
    {| RemoteServer := RemoteServer config; SSHUsername := SSHUsername config;
       SSHPassword := SSHPassword config; RemoteFolder := RemoteFolder config;
       LocalFolder := LocalFolder config;
       DockerImageName := value;
       DockerBuildArgs := DockerBuildArgs config;
       DockerRunArgs := DockerRunArgs config;
       IgnorePatterns := IgnorePatterns config |}
  else if String.eqb key "DOCKER_BUILD_ARGS" then
    {| RemoteServer := RemoteServer config; SSHUsername := SSHUsername config;
       SSHPassword := SSHPassword config; RemoteFolder := RemoteFolder config;
       LocalFolder := LocalFolder config;
       DockerImageName := DockerImageName config;
       DockerBuildArgs := value;
       DockerRunArgs := DockerRunArgs config;
       IgnorePatterns := IgnorePatterns config |}
  else if String.eqb key "DOCKER_RUN_ARGS" then
    {| RemoteServer := RemoteServer config; SSHUsername := SSHUsername config;
       SSHPassword := SSHPassword config; RemoteFolder := RemoteFolder config;
       LocalFolder := LocalFolder config;
       DockerImageName := DockerImageName config;
       DockerBuildArgs := DockerBuildArgs config;
       DockerRunArgs := value;
       IgnorePatterns := IgnorePatterns config |}
  else if String.eqb key "IGNORE" then
    {| RemoteServer := RemoteServer config; SSHUsername := SSHUsername config;
       SSHPassword := SSHPassword config; RemoteFolder := RemoteFolder config;
       LocalFolder := LocalFolder config;
       DockerImageName := DockerImageName config;
       DockerBuildArgs := DockerBuildArgs config;
       DockerRunArgs := DockerRunArgs config;
       IgnorePatterns := appendPatterns (IgnorePatterns config) value |}
  else config.

(** The body of the loop [for scanner.Scan()]. *)
Definition configLine (config : Config) (text : string) : Config :=
  let line := strings.TrimSpace text in
  if filepath.isEmpty line || strings.HasPrefix line "#" then config
  else
    match strings.SplitN2 line ":"%char with
    | [key; value] =>
        setKey config (strings.TrimSpace key) (strings.TrimSpace value)
    | _ => config
    end.

Definition defaultIgnorePatterns : list string :=
  [".git"; ".gitignore"; ".env"; "*.swp"; "*.tmp"].

(** The validation and the defaults at the end of [LoadConfig]. *)
Definition finishConfig (config : Config) : loaded :=
  if filepath.isEmpty (RemoteServer config)
     || filepath.isEmpty (SSHUsername config)
     || filepath.isEmpty (SSHPassword config)
     || filepath.isEmpty (RemoteFolder config)
     || filepath.isEmpty (DockerImageName config)
  then LoadFailed ErrMissingFields
  else
    Loaded
      {| RemoteServer := RemoteServer config;
         SSHUsername := SSHUsername config;
         SSHPassword := SSHPassword config;
         RemoteFolder := RemoteFolder config;
         LocalFolder :=
           if filepath.isEmpty (LocalFolder config) then "."
           else LocalFolder config;
         DockerImageName := DockerImageName config;
         DockerBuildArgs := DockerBuildArgs config;
         DockerRunArgs := DockerRunArgs config;
         IgnorePatterns :=
           match IgnorePatterns config with
           | [] => defaultIgnorePatterns
           | patterns => patterns
           end |}.

(** [LoadConfig]: [open] is [os.Open] followed by the scanner, [None]
    when the file cannot be opened. *)
Definition LoadConfig (open : string -> option ConfigFile) (filename : string)
  : loaded :=
  match open filename with
  | None => LoadFailed ErrOpenConfig
  | Some file =>
      let config := foldl configLine emptyConfig (scanned file) in
      if scanError file then LoadFailed ErrReadConfig
      else finishConfig config
  end.

(** ** [Connect], [confirmAction] and [main] *)

(** What dialling an address gives. *)
Inductive dialOutcome :=
| DialFails        (* [ssh.Dial] fails *)
| SftpFails        (* [sftp.NewClient] fails; the SSH client is closed *)
| Connected.

(** The address [Connect] dials: port 22 unless the server has a colon. *)
Definition dialAddress (config : Config) : string :=
  let addr := RemoteServer config in
  if negb (strings.Contains addr ":") then addr +:+ ":22" else addr.

(** [Connect]: [true] is an error. *)
Definition Connect (config : Config) (dial : string -> dialOutcome) : bool :=
  match dial (dialAddress config) with
  | Connected => false
  | _ => true
  end.

(** [confirmAction], on the word [fmt.Scanln] stores.  The comparison
    with the three words is the same with the lower case of ASCII as
    with that of Unicode: the only runes outside ASCII whose lower case
    is in ASCII are U+0130 (i) and U+212A (k). *)
Definition confirmAction (response : string) : bool :=
  let response := strings.ToLower (strings.TrimSpace response) in
  String.eqb response "" || String.eqb response "y"
  || String.eqb response "yes".

(** The loop of [main] over [os.Args[1:]]: [None] when the help is shown,
    else the configuration file and the mode. *)
Fixpoint parseArgs (args : list string) (configFile : string)
         (pullMode : bool) : option (string * bool) :=
  match args with
  | [] => Some (configFile, pullMode)
  | arg :: args' =>
      if String.eqb arg "-h" || String.eqb arg "--help" then None
      else if String.eqb arg "pull" then parseArgs args' configFile true
      else if negb (strings.HasPrefix arg "-") then
        parseArgs args' arg pullMode
      else parseArgs args' configFile pullMode
  end.

(** How [main] ends. *)
Inductive Exit :=
| ExitHelp                               (* the help is shown *)
| ExitConfig (e : ConfigError)           (* Failed to load configuration *)
| ExitLocalDir                           (* Failed to read local directory *)
| ExitConnect                            (* Failed to connect to remote server *)
| ExitCancelled                          (* Pull operation cancelled *)
| ExitPullFailed (e : SyncError)         (* File pull failed *)
| ExitPulled (report : SyncReport)       (* Pull completed successfully *)
| ExitSyncFailed (e : SyncError)         (* File synchronization failed *)
| ExitDockerFailed (report : SyncReport) (e : DeployError)
                                         (* Docker operations failed *)
| ExitDeployed (report : SyncReport).    (* All operations completed *)

(** What [main] runs on. *)
Record Machine := {
  osArgs : list string;                       (* [os.Args[1:]] *)
  configFiles : string -> option ConfigFile;  (* the files that open *)
  readDir : string -> option (list string);   (* [os.ReadDir]: the names *)
  dial : string -> dialOutcome;
  stdin : string;                             (* the word [Scanln] reads *)
  endpoints : Env;
  pushSource : tree;                          (* the local folder, pushed *)
  pushDest : fsmap;                           (* the remote files *)
  pullSource : tree;                          (* the remote folder, pulled *)
  pullDest : fsmap;                           (* the local files *)
}.

(** What [main] leaves behind. *)
Record Run := {
  exit : Exit;
  remoteAfter : fsmap;
  localAfter : fsmap;
  commands : list event;          (* the remote commands, in order *)
}.

(** The remote commands of [SyncFiles]: the query of the home directory,
    made once the local folder is known to be a directory. *)
Definition syncCommands (config : Config) (env : Env) (localTree : tree)
  : list event :=
  match statOf localTree with
  | Some localInfo =>
      if IsDir localInfo then (expandRemote config (host env) []).2 else []
  | None => []
  end.

(** [main] *)
Definition main (m : Machine) : Run :=
  let stop (e : Exit) :=
    {| exit := e; remoteAfter := pushDest m; localAfter := pullDest m;
       commands := [] |} in
  match parseArgs (osArgs m) "pooshit_config" false with
  | None => stop ExitHelp
  | Some (configFile, pullMode) =>
      match LoadConfig (configFiles m) configFile with
      | LoadFailed e => stop (ExitConfig e)
      | Loaded config =>
          match readDir m (LocalFolder config) with
          | None => stop ExitLocalDir
          | Some files =>
              if Connect config (dial m) then stop ExitConnect
              else if pullMode then
                if negb (confirmAction (stdin m)) then stop ExitCancelled
                else
                  let '(r, loc) :=
                    PullFiles config (endpoints m) (pullSource m) (pullDest m) in
                  {| exit := match r with
                             | Ok report => ExitPulled report
                             | Err e => ExitPullFailed e
                             end;
                     remoteAfter := pushDest m;
                     localAfter := loc;
                     commands :=
                       (expandRemote config (host (endpoints m)) []).2 |}
              else
                let '(r, remote) :=
                  SyncFiles config (endpoints m) (pushSource m) (pushDest m) in
                let trace := syncCommands config (endpoints m) (pushSource m) in
                match r with
                | Err e =>
                    {| exit := ExitSyncFailed e; remoteAfter := remote;
                       localAfter := pullDest m; commands := trace |}
                | Ok report =>
                    let '(err, trace) :=
                      ExecuteDockerCommands config (host (endpoints m)) trace in
                    {| exit := match err with
                               | Some e => ExitDockerFailed report e
                               | None => ExitDeployed report
                               end;
                       remoteAfter := remote;
                       localAfter := pullDest m;
                       commands := trace |}
                end
          end
      end
  end.

(** ** Notions the properties are stated with *)

(** The files the first pass of a push selects. *)
Definition planOf (config : Config) (env : Env) (localTree : tree)
  : list SyncItem :=
  match (expandRemote config (host env) []).1 with
  | Some remotePath => files (scanLocal config env remotePath localTree ∅).1
  | None => []
  end.

(** The key of a destination path in the file system. *)
Definition destKey (path : string) : string := filepath.Clean path.

(** Between [fs] and [fs'] nothing was written but new directories. *)
Definition onlyNewDirs (fs fs' : fsmap) : Prop :=
  forall path,
    fs' !! path = fs !! path
    \/ (fs !! path = None /\
        exists info, fs' !! path = Some info /\ IsDir info = true).

(** The string matches the rule as a glob: the rule has a star and
    [filepath.Match] reports a match (an error of [filepath.Match] is no
    match). *)
Definition globMatches (rule str : string) : bool :=
  strings.Contains rule "*" && (filepath.Match rule str).1.

(** The pull counts the walker's item as ignored. *)
Definition pullIgnores (config : Config) (remotePath : string)
           (item : walkItem) : bool :=
  negb (itemErr item)
  && match filepath.Rel remotePath (itemPath item), itemStat item with
     | Some relPath, Some stat =>
         negb (String.eqb (filepath.ToSlash relPath) ".")
         && shouldIgnore config (filepath.ToSlash relPath) stat
     | _, _ => false
     end.



(** The keys of the configuration file. *)
Definition knownKeys : list string :=
  ["REMOTE_SERVER"; "SSH_USERNAME"; "SSH_PASSWORD"; "REMOTE_FOLDER";
   "LOCAL_FOLDER"; "DOCKER_IMAGE_NAME"; "DOCKER_BUILD_ARGS";
   "DOCKER_RUN_ARGS"; "IGNORE"].

(** A line of the configuration file that sets nothing: blank, a
    comment, without a colon, or with a key that is not one of the nine
    (keys are compared as they are written, upper case). *)
Definition noiseLine (text : string) : bool :=
  let line := strings.TrimSpace text in
  filepath.isEmpty line || strings.HasPrefix line "#"
  || match strings.SplitN2 line ":"%char with
     | [key; _] => negb (existsb (String.eqb (strings.TrimSpace key)) knownKeys)
     | _ => true
     end.

(** The event belongs to the query of the remote home directory. *)
Definition isHomeQuery (ev : event) : bool :=
  match ev with
  | Issued command | Completed command _ => String.eqb command "echo $HOME"
  end.

(** An argument of the command line that names the configuration file. *)
Definition namesConfig (arg : string) : bool :=
  negb (String.eqb arg "pull") && negb (strings.HasPrefix arg "-").

Definition asksHelp (arg : string) : bool :=
  String.eqb arg "-h" || String.eqb arg "--help".

(** Every value of the configuration has the property. *)
Definition allValues (P : string -> Prop) (config : Config) : Prop :=
  P (RemoteServer config) /\ P (SSHUsername config) /\
  P (SSHPassword config) /\ P (RemoteFolder config) /\
  P (LocalFolder config) /\ P (DockerImageName config) /\
  P (DockerBuildArgs config) /\ P (DockerRunArgs config) /\
  Forall P (IgnorePatterns config).

(** The files the first pass of a pull selects. *)
Definition pullPlanOf (config : Config) (env : Env) (remoteTree : tree)
  : list SyncItem :=
  match (expandRemote config (host env) []).1 with
  | Some remotePath =>
      let remotePath := filepath.ToSlash remotePath in
      files (pullScan config env remotePath (walkerItems remotePath remoteTree)
                      {| files := []; ignoredCount := 0; dest := ∅ |})
  | None => []
  end.



(** Between [fs] and [fs'] nothing was removed, and what was a
    directory is a directory and what was a file is a file. *)
Definition sameKinds (fs fs' : fsmap) : Prop :=
  forall path info,
    fs !! path = Some info ->
    exists info', fs' !! path = Some info' /\ IsDir info' = IsDir info.

(** The destinations of a list of files, on the remote and on the local
    side. *)
Definition remoteKeys (plan : list SyncItem) : list string :=
  map (fun f => destKey (remotePath f)) plan.

Definition localKeys (plan : list SyncItem) : list string :=
  map (fun f => destKey (localPath f)) plan.

(** ** Sample inputs *)

(** A configuration file as the README shows it, with a comment, a blank
    line and a line that is not an assignment. *)
Definition sampleConfigFile : ConfigFile :=
  {| scanned :=
       ["# deployment of the web image"; "";
        "REMOTE_SERVER: example.com:2222"; "SSH_USERNAME: deploy";
        "SSH_PASSWORD: secret"; "REMOTE_FOLDER: ~/projects/web";
        "DOCKER_IMAGE_NAME: web";
        "DOCKER_RUN_ARGS: --restart unless-stopped -p 8080:3000 -d";
        "IGNORE: node_modules/, .git , *.env,, *.log";
        "not an assignment"];
     scanError := false |}.

(** What [LoadConfig] makes of it. *)
Definition sampleLoaded : Config :=
  {| RemoteServer := "example.com:2222"; SSHUsername := "deploy";
     SSHPassword := "secret"; RemoteFolder := "~/projects/web";
     LocalFolder := "."; DockerImageName := "web";
     DockerBuildArgs := "";
     DockerRunArgs := "--restart unless-stopped -p 8080:3000 -d";
     IgnorePatterns := ["node_modules/"; ".git"; "*.env"; "*.log"] |}.

Definition sampleOpen (filename : string) : option ConfigFile :=
  if String.eqb filename "pooshit_config" then Some sampleConfigFile
  else None.

Definition sampleConfig (patterns : list string) : Config :=
  {| RemoteServer := "example.com"; SSHUsername := "deploy";
     SSHPassword := "secret"; RemoteFolder := "/srv/app";
     LocalFolder := "proj"; DockerImageName := "web";
     DockerBuildArgs := ""; DockerRunArgs := "";
     IgnorePatterns := patterns |}.

Definition fileInfo (name : string) (size modTime : Z) : FileInfo :=
  {| Name := name; IsDir := false; Size := size; ModTime := modTime |}.

Definition dirInfo (name : string) : FileInfo :=
  {| Name := name; IsDir := true; Size := 4096; ModTime := 0 |}.

(** A remote host on which no container can be stopped and no image
    removed, and everything else works. *)
Definition sampleHost : Host :=
  fun _ command =>
    if String.eqb command "echo $HOME" then Exits "/home/deploy " false
    else if strings.HasPrefix command "sudo docker ps"
            || strings.HasPrefix command "sudo docker rmi"
    then Exits "Cannot connect to the Docker daemon" true
    else Exits "4f1d2c" false.

(** Endpoints on which every directory can be made and every copy
    succeeds with [size] bytes, stamped [now]. *)
Definition sampleEnv (size now : Z) : Env :=
  {| host := sampleHost;
     mkdirFails := fun _ => false;
     dirSize := fun _ => 4096%Z;
     clock := fun _ => now;
     copy := fun _ => Copied size |}.

(** [a.txt] beside a [node_modules] directory of two files. *)
Definition sampleTree : tree :=
  Dir "proj" 4096 0
      (Some [File "a.txt" 10 5000000000;
             Dir "node_modules" 4096 0
                 (Some [File "x.js" 3 3; File "y.js" 4 4])]).


(** A machine whose user asks for a pull and then answers [n]. *)
Definition declinedPull : Machine :=
  {| osArgs := ["pull"];
     configFiles := fun filename =>
       if String.eqb filename "pooshit_config" then Some sampleConfigFile
       else None;
     readDir := fun _ => Some ["a.txt"; "node_modules"];
     dial := fun _ => Connected;
     stdin := "n";
     endpoints := sampleEnv 10 100;
     pushSource := sampleTree; pushDest := ∅;
     pullSource := sampleTree; pullDest := ∅ |}.

(** The same machine, with an argument list and an answer. *)
Definition sampleMachine (args : list string) (answer : string) : Machine :=
  {| osArgs := args;
     configFiles := configFiles declinedPull;
     readDir := readDir declinedPull;
     dial := dial declinedPull;
     stdin := answer;
     endpoints := endpoints declinedPull;
     pushSource := sampleTree; pushDest := ∅;
     pullSource := sampleTree; pullDest := ∅ |}.

(** * Properties *)

(** ** Facts about the string functions *)

Section StringFacts.
Import strings.

Lemma Contains_cons_star (c : ascii) (s : string) :
  Contains (String c s) "*" = Ascii.eqb c "*" || Contains s "*".
Proof. simpl. by rewrite andb_true_r. Qed.

Lemma Contains_star_drop (s : string) (n : nat) :
  Contains s "*" = false -> Contains (drop n s) "*" = false.
Proof.
  revert s; induction n as [|n IH]; intros s Hs; [done|].
  destruct s as [|c s]; [done|].
  rewrite Contains_cons_star in Hs.
  apply orb_false_iff in Hs as [_ Hs]. by apply IH.
Qed.

Lemma Contains_star_TrimPrefix (s prefix : string) :
  Contains s "*" = false -> Contains (TrimPrefix s prefix) "*" = false.
Proof.
  intros Hs. unfold TrimPrefix.
  destruct (HasPrefix s prefix); [by apply Contains_star_drop|done].
Qed.

Lemma Contains_star_TrimSuffix (s suffix : string) :
  Contains s "*" = false -> Contains (TrimSuffix s suffix) "*" = false.
Proof.
  induction s as [|c s IH]; intros Hs; cbn -[String.eqb Contains].
  - by destruct (String.eqb _ _).
  - destruct (String.eqb _ _); [done|].
    destruct (HasSuffix s suffix); [|done].
    rewrite Contains_cons_star in Hs |- *.
    apply orb_false_iff in Hs as [-> Hs]. by apply IH.
Qed.

(** Dropping a prefix that has no star keeps the stars of the string. *)
Lemma Contains_star_drop_prefix (prefix s : string) :
  HasPrefix s prefix = true -> Contains prefix "*" = false ->
  Contains (drop (String.length prefix) s) "*" = Contains s "*".
Proof.
  revert s; induction prefix as [|p prefix IH]; intros s Hp Hn; [done|].
  destruct s as [|c s]; [done|]. simpl in Hp.
  apply andb_true_iff in Hp as [Hc Hp].
  apply Ascii.eqb_eq in Hc as ->.
  rewrite Contains_cons_star in Hn. apply orb_false_iff in Hn as [Hp' Hn].
  rewrite Contains_cons_star, Hp'. simpl. by apply IH.
Qed.

Lemma HasSuffix_drop (s suffix : string) (n : nat) :
  HasSuffix s suffix = false -> HasSuffix (drop n s) suffix = false.
Proof.
  revert s; induction n as [|n IH]; intros s Hs; [done|].
  destruct s as [|c s]; [done|].
  simpl in Hs. apply orb_false_iff in Hs as [_ Hs]. by apply IH.
Qed.

Lemma HasSuffix_TrimPrefix (s prefix suffix : string) :
  HasSuffix s suffix = false -> HasSuffix (TrimPrefix s prefix) suffix = false.
Proof.
  intros Hs. unfold TrimPrefix.
  destruct (HasPrefix s prefix); [by apply HasSuffix_drop|done].
Qed.

End StringFacts.

(** ** The fuel of the glob matcher *)

Section GlobFuel.
Import filepath.

Lemma length_drop (n : nat) (s : string) :
  String.length (strings.drop n s) = String.length s - n.
Proof.
  revert s; induction n as [|n IH]; intros [|c s]; simpl; done.
Qed.

Lemma isEmpty_length (s : string) :
  isEmpty s = false -> 0 < String.length s.
Proof. destruct s; simpl; [done|lia]. Qed.

Lemma startsWith_length (c : ascii) (s : string) :
  startsWith c s = true -> 0 < String.length s.
Proof. destruct s; simpl; [done|lia]. Qed.

Lemma DecodeRuneInString_width (c : ascii) (s : string) :
  0 < (utf8.DecodeRuneInString (String c s)).2.
Proof.
  unfold utf8.DecodeRuneInString.
  repeat case_match; simpl; lia.
Qed.

Lemma getEsc_shorter (chunk rest : string) (r : N) :
  getEsc chunk = Some (r, rest) -> String.length rest < String.length chunk.
Proof.
  unfold getEsc. destruct chunk as [|c chunk']; [done|].
  destruct (_ || _); [done|].
  set (chunk := if Ascii.eqb c "\"%char then chunk' else String c chunk').
  assert (Hle : String.length chunk <= String.length (String c chunk')).
  { unfold chunk. destruct (Ascii.eqb c "\"%char); simpl; lia. }
  destruct chunk as [|d chunk'']; [done|]. cbn [isEmpty].
  pose proof (DecodeRuneInString_width d chunk'') as Hwidth.
  destruct (utf8.DecodeRuneInString _) as [r' n].
  destruct (_ || _); [done|]. intros [= <- <-].
  rewrite length_drop. simpl in *. lia.
Qed.

Lemma parseRanges_shorter (fuel : nat) :
  forall (chunk : string) (r : N) (matched : bool) (nrange : nat)
         (found : bool) (rest : string),
    parseRanges fuel chunk r matched nrange = Some (found, rest) ->
    String.length rest < String.length chunk.
Proof.
  induction fuel as [|fuel IH]; intros chunk r matched nrange found rest;
    [done|]. cbn [parseRanges].
  destruct (startsWith "]" chunk && _) eqn:Hclose.
  - intros [= <- <-]. apply andb_true_iff in Hclose as [Hc _].
    destruct chunk; [done|]. simpl. lia.
  - destruct (getEsc chunk) as [[lo chunk1]|] eqn:E1; [|done].
    apply getEsc_shorter in E1.
    destruct (startsWith "-" chunk1).
    + destruct (getEsc _) as [[hi chunk2]|] eqn:E2; [|done].
      apply getEsc_shorter in E2. rewrite length_drop in E2.
      intros H%IH. lia.
    + intros H%IH. lia.
Qed.

Lemma parseRanges_fuel (fuel : nat) :
  forall (fuel' : nat) (chunk : string) (r : N) (matched : bool)
         (nrange : nat),
    String.length chunk <= fuel -> String.length chunk <= fuel' ->
    parseRanges fuel chunk r matched nrange
    = parseRanges fuel' chunk r matched nrange.
Proof.
  induction fuel as [|fuel IH]; intros fuel' chunk r matched nrange H H'.
  - destruct chunk; [|simpl in H; lia]. by destruct fuel'.
  - destruct fuel' as [|fuel'].
    { by destruct chunk; [|simpl in H'; lia]. }
    cbn [parseRanges]. destruct (startsWith "]" chunk && _); [done|].
    destruct (getEsc chunk) as [[lo chunk1]|] eqn:E1; [|done].
    apply getEsc_shorter in E1.
    destruct (startsWith "-" chunk1).
    + destruct (getEsc _) as [[hi chunk2]|] eqn:E2; [|done].
      apply getEsc_shorter in E2. rewrite length_drop in E2.
      apply IH; lia.
    + apply IH; lia.
Qed.

Lemma matchChunkLoop_fuel (fuel : nat) :
  forall (fuel' : nat) (chunk s : string) (failed : bool),
    String.length chunk <= fuel -> String.length chunk <= fuel' ->
    matchChunkLoop fuel chunk s failed = matchChunkLoop fuel' chunk s failed.
Proof.
  induction fuel as [|fuel IH]; intros fuel' chunk s failed H H'.
  - destruct chunk; [|simpl in H; lia]. by destruct fuel'.
  - destruct chunk as [|c chunk']; [by destruct fuel'|].
    destruct fuel' as [|fuel']; [simpl in H'; lia|].
    simpl in H, H'. cbn [matchChunkLoop].
    destruct (Ascii.eqb c "["%char).
    + set (chunk1 := if startsWith "^" chunk' then _ else _).
      assert (String.length chunk1 <= String.length chunk') as Hlen.
      { unfold chunk1. destruct (startsWith _ _); [|done].
        rewrite length_drop. lia. }
      assert (Hranges : forall r,
                 parseRanges fuel chunk1 r false 0
                 = parseRanges fuel' chunk1 r false 0)
        by (intros r; apply parseRanges_fuel; lia).
      destruct (failed || _); [|destruct (utf8.DecodeRuneInString s)];
        cbn beta iota zeta; rewrite Hranges;
        (destruct (parseRanges fuel' chunk1 _ false 0)
           as [[found chunk2]|] eqn:E; [|done]);
        apply parseRanges_shorter in E; apply IH; lia.
    + destruct (Ascii.eqb c "?"%char).
      { destruct s as [|d s']; [|destruct (failed || _)];
          [..|destruct (utf8.DecodeRuneInString _)]; apply IH; lia. }
      destruct (Ascii.eqb c "\"%char).
      * destruct chunk' as [|e chunk'']; [done|].
        destruct (literal _ _ _). apply IH; simpl in *; lia.
      * destruct (literal _ _ _). apply IH; lia.
Qed.

Lemma skipStars_shorter (pattern : string) :
  String.length (skipStars pattern).2 <= String.length pattern /\
  ((skipStars pattern).1 = true ->
   String.length (skipStars pattern).2 < String.length pattern) /\
  ((skipStars pattern).1 = false ->
   (skipStars pattern).2 = pattern /\ startsWith "*" pattern = false).
Proof.
  induction pattern as [|c pattern IH]; simpl; [done|].
  destruct (Ascii.eqb c "*"%char) eqn:E; simpl; [|done].
  destruct IH as (Hle & _ & _). repeat split; (lia || done).
Qed.

Lemma scanIndex_positive (c : ascii) (pattern : string) :
  Ascii.eqb c "*" = false -> 0 < scanIndex false (String c pattern) false.
Proof. intros E. simpl. rewrite E. simpl. repeat case_match; lia. Qed.

(** [scanChunk] takes at least one byte off a pattern that is not
    empty. *)
Lemma scanChunk_shorter (pattern chunk rest : string) (star : bool) :
  isEmpty pattern = false ->
  scanChunk pattern = (star, chunk, rest) ->
  String.length rest < String.length pattern.
Proof.
  intros Hne%isEmpty_length. unfold scanChunk.
  pose proof (skipStars_shorter pattern) as (Hle & Htrue & Hfalse).
  destruct (skipStars pattern) as [[] pattern']; simpl in *;
    intros [= <- <- <-]; rewrite length_drop.
  - specialize (Htrue eq_refl). lia.
  - destruct (Hfalse eq_refl) as [-> Hstar].
    destruct pattern as [|c pattern]; [simpl in Hne; lia|].
    pose proof (scanIndex_positive c pattern Hstar). simpl String.length. lia.
Qed.

Lemma badRemainder_fuel (fuel : nat) :
  forall (fuel' : nat) (pattern : string),
    String.length pattern <= fuel -> String.length pattern <= fuel' ->
    badRemainder fuel pattern = badRemainder fuel' pattern.
Proof.
  induction fuel as [|fuel IH]; intros fuel' pattern H H'.
  - destruct pattern; [|simpl in H; lia]. by destruct fuel'.
  - destruct fuel' as [|fuel'].
    { by destruct pattern; [|simpl in H'; lia]. }
    cbn [badRemainder]. destruct (isEmpty pattern) eqn:Hne; [done|].
    destruct (scanChunk pattern) as [[star chunk] rest] eqn:Hscan.
    apply scanChunk_shorter in Hscan; [|done].
    destruct (matchChunk chunk ""); try done; apply IH; lia.
Qed.

Lemma MatchLoop_fuel (fuel : nat) :
  forall (fuel' : nat) (pattern name : string),
    String.length pattern <= fuel -> String.length pattern <= fuel' ->
    MatchLoop fuel pattern name = MatchLoop fuel' pattern name.
Proof.
  induction fuel as [|fuel IH]; intros fuel' pattern name H H'.
  - destruct pattern; [|simpl in H; lia]. by destruct fuel'.
  - destruct fuel' as [|fuel'].
    { by destruct pattern; [|simpl in H'; lia]. }
    cbn [MatchLoop]. destruct (isEmpty pattern) eqn:Hne; [done|].
    destruct (scanChunk pattern) as [[star chunk] rest] eqn:Hscan.
    apply scanChunk_shorter in Hscan; [|done].
    destruct (star && isEmpty chunk); [done|].
    rewrite (badRemainder_fuel fuel fuel') by lia.
    assert (Hrec : forall t, MatchLoop fuel rest t = MatchLoop fuel' rest t)
      by (intros t; apply IH; lia).
    destruct (matchChunk chunk name) as [| |t]; try done.
    + destruct star; [|done].
      destruct (skipLoop _ _ _) as [[| |t]|]; by rewrite ?Hrec.
    + destruct (_ || _); [apply Hrec|].
      destruct star; [|done].
      destruct (skipLoop _ _ _) as [[| |t']|]; by rewrite ?Hrec.
Qed.

(** The fuel of [Match] is enough: more fuel gives the same answer, so
    the branches that run out of fuel are never taken. *)
Lemma Match_fuel (fuel : nat) (pattern name : string) :
  String.length pattern <= fuel ->
  MatchLoop fuel pattern name = Match pattern name.
Proof. intros H. by apply MatchLoop_fuel. Qed.

Lemma matchChunk_fuel (fuel : nat) (chunk s : string) :
  String.length chunk <= fuel ->
  matchChunkLoop fuel chunk s false = matchChunk chunk s.
Proof. intros H. by apply matchChunkLoop_fuel. Qed.

End GlobFuel.

(** ** Facts about the ignore matcher *)

(** Without a star in the pattern, [matchPattern] is equality. *)
Lemma matchPattern_plain (str pattern : string) :
  strings.Contains pattern "*" = false ->
  matchPattern str pattern = String.eqb str pattern.
Proof. intros H. unfold matchPattern. by rewrite H. Qed.

Lemma anyPartMatches_plain (pathParts : list string) (pattern : string) :
  strings.Contains pattern "*" = false ->
  anyPartMatches pathParts pattern = true <-> pattern ∈ pathParts.
Proof.
  intros Hp. induction pathParts as [|part parts IH]; simpl.
  - split; [done|]. by intros ?%elem_of_nil.
  - rewrite matchPattern_plain, orb_diag by done.
    rewrite elem_of_cons.
    destruct (String.eqb_spec part pattern) as [->|Hne]; [tauto|].
    rewrite IH. split; [tauto|]. intros [?|?]; congruence.
Qed.

(** The clean-up of a pattern keeps it free of stars. *)
Lemma cleanPattern_plain (pattern : string) :
  strings.Contains pattern "*" = false ->
  strings.Contains (cleanPattern pattern).2 "*" = false.
Proof.
  intros Hp. unfold cleanPattern. simpl.
  destruct (strings.HasSuffix _ _).
  - by apply Contains_star_TrimSuffix, Contains_star_TrimPrefix,
      Contains_star_TrimPrefix.
  - by apply Contains_star_TrimPrefix, Contains_star_TrimPrefix.
Qed.

(** A pattern with a star and without a trailing slash is cleaned to a
    pattern with a star that is not a directory pattern. *)
Lemma cleanPattern_wildcard (pattern : string) :
  strings.HasSuffix pattern "/" = false ->
  strings.Contains pattern "*" = true ->
  (cleanPattern pattern).1 = false /\
  strings.Contains (cleanPattern pattern).2 "*" = true.
Proof.
  intros Hs Hc. unfold cleanPattern.
  assert (Hs' : strings.HasSuffix
                  (strings.TrimPrefix (strings.TrimPrefix pattern "/") "./")
                  "/" = false)
    by by do 2 apply HasSuffix_TrimPrefix.
  rewrite Hs'. simpl. split; [done|].
  unfold strings.TrimPrefix.
  destruct (strings.HasPrefix pattern "/") eqn:H1.
  - destruct (strings.HasPrefix _ "./") eqn:H2.
    + by rewrite !Contains_star_drop_prefix.
    + by rewrite Contains_star_drop_prefix.
  - destruct (strings.HasPrefix _ "./") eqn:H2; [|done].
    by rewrite Contains_star_drop_prefix.
Qed.

(** The loop over the patterns is the disjunction of its iterations. *)
Lemma ignoreLoop_existsb (baseName relPathSlash : string) (isDir : bool)
      (patterns : list string) :
  ignoreLoop baseName relPathSlash isDir patterns
  = existsb (patternIgnores baseName relPathSlash isDir) patterns.
Proof.
  induction patterns as [|p ps IH]; simpl; [done|].
  rewrite IH. by destruct (patternIgnores _ _ _ p).
Qed.

Lemma existsb_Permutation {A} (f : A -> bool) (l l' : list A) :
  l ≡ₚ l' -> existsb f l = existsb f l'.
Proof.
  induction 1 as [|x l l' _ IH|x y l|l l' l'' _ IH1 _ IH2]; simpl.
  - done.
  - by rewrite IH.
  - by destruct (f x), (f y).
  - congruence.
Qed.

Lemma patternIgnores_plain (relPath : string) (isDir : bool) (pattern : string) :
  strings.Contains pattern "*" = false ->
  patternIgnores (filepath.Base relPath) relPath isDir pattern = true <->
  (isDir = true /\ filepath.Base relPath = (cleanPattern pattern).2)
  \/ (cleanPattern pattern).2 ∈ strings.Split relPath "/".
Proof.
  intros Hp. apply cleanPattern_plain in Hp.
  unfold patternIgnores.
  destruct (cleanPattern pattern) as [isDirectoryPattern rule]; simpl in *.
  rewrite Hp, orb_true_r, andb_true_l, matchPattern_plain, orb_diag by done.
  rewrite <- (anyPartMatches_plain _ _ Hp).
  destruct (anyPartMatches _ _); [rewrite orb_true_r; tauto|].
  rewrite orb_false_r. simpl.
  destruct isDir; simpl.
  - destruct (String.eqb_spec (filepath.Base relPath) rule); split; try tauto.
    all: intros [[_ ?]|?]; done.
  - split; [done|]. intros [[? _]|?]; done.
Qed.

Lemma patternIgnores_wildcard (baseName relPathSlash : string) (isDir : bool)
      (pattern : string) :
  strings.HasSuffix pattern "/" = false ->
  strings.Contains pattern "*" = true ->
  patternIgnores baseName relPathSlash isDir pattern
  = (filepath.Match (cleanPattern pattern).2 baseName).1.
Proof.
  intros Hs Hc.
  destruct (cleanPattern_wildcard pattern Hs Hc) as [Hd Hstar].
  unfold patternIgnores, matchPattern.
  destruct (cleanPattern pattern) as [isDirectoryPattern rule]; simpl in *.
  by rewrite Hd, Hstar.
Qed.

(** ** C3: the change detector *)

(** C3, as stated, fails at the boundary: a destination of the same size
    whose modification time is exactly one second before the source's is
    "no earlier than the source time minus one second", and yet the file
    is transferred. *)
Lemma needsUpdate_boundary_counterexample :
  let src := fileInfo "a.txt" 10 1000000000 in
  let dst := fileInfo "a.txt" 10 0 in
  Size dst = Size src /\
  (ModTime src - time.Second <= ModTime dst)%Z /\
  needsUpdate (Some dst) src = true.
Proof. by vm_compute. Qed.

(** C3 (amended): the check answers "no transfer" exactly when the
    destination exists, has the size of the source, and was modified
    strictly later than one second before the source; in particular any
    difference of size forces the transfer. *)
Theorem needsUpdate_false_iff (stat : option FileInfo) (info : FileInfo) :
  needsUpdate stat info = false <->
  exists destInfo,
    stat = Some destInfo /\
    Size destInfo = Size info /\
    (ModTime info - time.Second < ModTime destInfo)%Z.
Proof.
  unfold needsUpdate, time.After, time.Add.
  destruct stat as [destInfo|]; [|split; [done|by intros (? & ? & _)]].
  destruct (Z.eqb_spec (Size destInfo) (Size info)) as [Hs|Hs]; simpl.
  - destruct (Z.ltb_spec (ModTime info + - time.Second) (ModTime destInfo)).
    + split; [|done]. intros _. exists destInfo. repeat split; [done|lia].
    + split; [done|]. intros (d & [= <-] & _ & ?). lia.
  - split; [done|]. by intros (d & [= <-] & ? & _).
Qed.

(** ** C4: directory rules *)

(** C4, as stated, fails for a directory pattern that has a star: the
    rule ["b*/"] ignores the regular file ["bar"], whose base name and
    only segment differ from ["b*"]. *)
Lemma directory_rule_glob_counterexample :
  let config := sampleConfig ["b*/"] in
  let info := fileInfo "bar" 0 0 in
  strings.HasSuffix "b*/" "/" = true /\
  shouldIgnore config "bar" info = true /\
  ~ ((IsDir info = true /\ filepath.Base "bar" = (cleanPattern "b*/").2)
     \/ (cleanPattern "b*/").2 ∈ strings.Split "bar" "/").
Proof.
  repeat split; [done..|].
  intros [[? _]|H]; [done|].
  vm_compute in H. apply list_elem_of_singleton in H. discriminate.
Qed.

(** The two comparisons the loop body makes on a name. *)
Lemma equals_or_matches (str rule : string) :
  String.eqb str rule || matchPattern str rule = true <->
  str = rule \/ globMatches rule str = true.
Proof.
  unfold matchPattern, globMatches.
  destruct (String.eqb_spec str rule) as [->|Hne]; [simpl; tauto|].
  destruct (strings.Contains rule "*"); simpl.
  - tauto.
  - split; [done|]. by intros [?|?].
Qed.

Lemma anyPartMatches_iff (pathParts : list string) (rule : string) :
  anyPartMatches pathParts rule = true <->
  exists part, part ∈ pathParts /\ (part = rule \/ globMatches rule part = true).
Proof.
  induction pathParts as [|part parts IH]; cbn [anyPartMatches].
  - split; [done|]. by intros (? & ?%elem_of_nil & _).
  - destruct (String.eqb part rule || matchPattern part rule) eqn:E.
    + split; [|done]. intros _. exists part.
      split; [apply list_elem_of_here|]. by apply equals_or_matches.
    + rewrite IH. split.
      * intros (p & Hp & H). exists p. split; [by apply list_elem_of_further|done].
      * intros (p & [->|Hp]%elem_of_cons & H); [|by exists p].
        apply equals_or_matches in H. congruence.
Qed.

(** C4 (amended): a directory rule (a pattern that ends with a slash once
    its leading ["/"] and ["./"] are removed; the rule string is the
    pattern without them) matches exactly when (a) the entry is a
    directory whose base name equals the rule string or matches it as a
    glob, or (b) some segment of the path equals the rule string or
    matches it as a glob, or (c) the base name matches the rule string
    as a glob; only a rule string with a star matches anything as a
    glob.  So a rule string without a star matches exactly when the
    entry is a directory whose base name equals it, or some segment of
    the path equals it. *)
Theorem directory_rule_iff (config : Config) (pattern relPath : string)
        (info : FileInfo) :
  IgnorePatterns config = [pattern] ->
  (cleanPattern pattern).1 = true ->
  let rule := (cleanPattern pattern).2 in
  (shouldIgnore config relPath info = true <->
   (IsDir info = true /\
    (filepath.Base relPath = rule
     \/ globMatches rule (filepath.Base relPath) = true))
   \/ (exists part, part ∈ strings.Split relPath "/" /\
                     (part = rule \/ globMatches rule part = true))
   \/ globMatches rule (filepath.Base relPath) = true)
  /\ (strings.Contains rule "*" = false ->
      (shouldIgnore config relPath info = true <->
       (IsDir info = true /\ filepath.Base relPath = rule)
       \/ rule ∈ strings.Split relPath "/")).
Proof.
  intros Hc Hdir rule.
  assert (Hgeneral :
            shouldIgnore config relPath info = true <->
            (IsDir info = true /\
             (filepath.Base relPath = rule
              \/ globMatches rule (filepath.Base relPath) = true))
            \/ (exists part, part ∈ strings.Split relPath "/" /\
                              (part = rule \/ globMatches rule part = true))
            \/ globMatches rule (filepath.Base relPath) = true).
  { unfold shouldIgnore. rewrite Hc. cbn [ignoreLoop].
    unfold patternIgnores, filepath.ToSlash. subst rule.
    destruct (cleanPattern pattern) as [isDirectoryPattern rule].
    cbn [fst snd] in *. subst isDirectoryPattern. cbn [orb andb].
    rewrite <- (equals_or_matches (filepath.Base relPath) rule).
    rewrite <- (anyPartMatches_iff (strings.Split relPath "/") rule).
    assert (Hglob : strings.Contains rule "*"
                    && matchPattern (filepath.Base relPath) rule
                    = globMatches rule (filepath.Base relPath)).
    { unfold matchPattern, globMatches.
      by destruct (strings.Contains rule "*"). }
    rewrite Hglob.
    destruct (IsDir info), (String.eqb _ _ || matchPattern _ _),
      (anyPartMatches _ _), (globMatches _ _); cbn; intuition congruence. }
  split; [exact Hgeneral|]. intros Hplain. rewrite Hgeneral.
  assert (Hnone : forall str, globMatches rule str = false).
  { intros str. unfold globMatches. by rewrite Hplain. }
  rewrite Hnone. split.
  - intros [[Hd [Hb|Hb]]|[(part & Hpart & [->|Hg])|Hg]];
      rewrite ?Hnone in *; try done; [by left|by right].
  - intros [[Hd Hb]|Hin]; [left; by split; [|left]|].
    right; left. exists rule. split; [done|by left].
Qed.

Lemma directory_rule_iff_witness :
  let config := sampleConfig ["b*/"] in
  let info := fileInfo "bar" 0 0 in
  IgnorePatterns config = ["b*/"] /\
  (cleanPattern "b*/").1 = true /\
  (shouldIgnore config "bar" info = true <->
   (IsDir info = true /\
    (filepath.Base "bar" = "b*" \/ globMatches "b*" (filepath.Base "bar") = true))
   \/ (exists part, part ∈ strings.Split "bar" "/" /\
                     (part = "b*" \/ globMatches "b*" part = true))
   \/ globMatches "b*" (filepath.Base "bar") = true).
Proof.
  do 2 (split; [reflexivity|]).
  exact (proj1 (directory_rule_iff (sampleConfig ["b*/"]) "b*/" "bar"
                                   (fileInfo "bar" 0 0) eq_refl eq_refl)).
Defined.

(** With a star in the rule the equality tests are still made: the rule
    ["a*[/"], which is no well-formed glob, ignores the file ["a*["]. *)
Lemma directory_rule_equality_remains :
  shouldIgnore (sampleConfig ["a*[/"]) "a*[" (fileInfo "a*[" 0 0) = true /\
  globMatches "a*[" "a*[" = false.
Proof. by vm_compute. Qed.

(** ** C5: the matcher is a function of its inputs, and order-independent *)

(** C5: the answer of [shouldIgnore] is the disjunction of the answers of
    the rules, each a function of the path and of the directory flag; so
    it is the same for any configuration and file information that agree
    on the rules up to their order and on the directory flag. *)
Theorem shouldIgnore_or_of_rules (config : Config) (P : string)
        (info : FileInfo) :
  shouldIgnore config P info
  = existsb (patternIgnores (filepath.Base P) (filepath.ToSlash P) (IsDir info))
            (IgnorePatterns config)
  /\ forall (config' : Config) (info' : FileInfo),
       IsDir info' = IsDir info ->
       IgnorePatterns config' ≡ₚ IgnorePatterns config ->
       shouldIgnore config' P info' = shouldIgnore config P info.
Proof.
  unfold shouldIgnore. split; [apply ignoreLoop_existsb|].
  intros config' info' -> Hperm.
  rewrite !ignoreLoop_existsb. by apply existsb_Permutation.
Qed.

Lemma shouldIgnore_or_of_rules_witness :
  let config := sampleConfig [".git"; "*.tmp"] in
  let config' := sampleConfig ["*.tmp"; ".git"] in
  IsDir (fileInfo "x.tmp" 7 9) = IsDir (fileInfo "x.tmp" 1 2) /\
  IgnorePatterns config' ≡ₚ IgnorePatterns config /\
  shouldIgnore config' "a/x.tmp" (fileInfo "x.tmp" 7 9)
  = shouldIgnore config "a/x.tmp" (fileInfo "x.tmp" 1 2).
Proof.
  split; [reflexivity|]. split; [apply perm_swap|].
  apply (proj2 (shouldIgnore_or_of_rules
                  (sampleConfig [".git"; "*.tmp"]) "a/x.tmp"
                  (fileInfo "x.tmp" 1 2))); [reflexivity|apply perm_swap].
Defined.

(** ** C9: wildcard rules *)

(** C9: a wildcard rule (a pattern with a star and no trailing slash)
    matches a path exactly when [filepath.Match] matches the cleaned
    pattern against the base name of the path; the directory components
    above the base name play no part. *)
Theorem wildcard_rule_base_name_only (config : Config)
        (pattern relPath : string) (info : FileInfo) :
  IgnorePatterns config = [pattern] ->
  strings.HasSuffix pattern "/" = false ->
  strings.Contains pattern "*" = true ->
  shouldIgnore config relPath info
  = (filepath.Match (cleanPattern pattern).2 (filepath.Base relPath)).1.
Proof.
  intros Hc Hs Hstar. unfold shouldIgnore. rewrite Hc. simpl.
  rewrite (patternIgnores_wildcard _ _ _ _ Hs Hstar).
  by destruct (filepath.Match _ _).1.
Qed.

Lemma wildcard_rule_base_name_only_witness :
  let config := sampleConfig ["*.d"] in
  IgnorePatterns config = ["*.d"] /\
  strings.HasSuffix "*.d" "/" = false /\
  strings.Contains "*.d" "*" = true /\
  shouldIgnore config "conf.d/nginx" (fileInfo "nginx" 1 1)
  = (filepath.Match (cleanPattern "*.d").2 (filepath.Base "conf.d/nginx")).1.
Proof.
  do 3 (split; [reflexivity|]).
  apply (wildcard_rule_base_name_only (sampleConfig ["*.d"]) "*.d"
           "conf.d/nginx" (fileInfo "nginx" 1 1)); reflexivity.
Defined.

(** ** C7, C8: the deployment pipeline *)

Lemma session_trace (host : Host) (command : string) (trace trace' : list event)
      (o : outcome) :
  session host command trace = (o, trace') ->
  trace' = trace ++ [Issued command; Completed command (failedOf o)].
Proof.
  unfold session. intros [= <- <-]. by rewrite <- app_assoc.
Qed.

Ltac session_step H :=
  match type of H with
  | context [session ?h ?c ?tr] =>
      let o := fresh "o" in
      let tr' := fresh "tr" in
      let E := fresh "E" in
      destruct (session h c tr) as [o tr'] eqn:E;
      apply session_trace in E; subst tr'; cbn beta iota zeta in H
  end.

Ltac pipeline_steps H :=
  do 4 session_step H;
  match type of H with
  | context [if failedOf ?o then _ else _] => destruct (failedOf o) eqn:?
  end;
  [ injection H as <- <-
  | session_step H;
    match type of H with
    | context [if failedOf ?o then _ else _] => destruct (failedOf o) eqn:?
    end;
    injection H as <- <- ];
  do 6 eexists;
  (split; [rewrite <- ?app_assoc; cbn [app]; reflexivity | eauto 7]).

(** The calls [ExecuteDockerCommands] makes, in order: the query of the
    home directory when the remote folder starts with ["~/"], then the
    check for the Dockerfile, the two clean-up steps and the build, and
    the run when the build has no error. *)
Lemma ExecuteDockerCommands_shape (config : Config) (host : Host)
      (res : option DeployError) (trace : list event) :
  ExecuteDockerCommands config host [] = (res, trace) ->
  exists (home : list event),
    (home = [] \/
     exists e, home = [Issued "echo $HOME"; Completed "echo $HOME" e]) /\
    ((res = Some ErrHome /\ trace = home) \/
     exists (remotePath : string) (e1 e2 e3 e4 : bool) (tail : list event),
       trace = home ++
               [Issued (checkCommand remotePath);
                Completed (checkCommand remotePath) e1;
                Issued (stopCommand config);
                Completed (stopCommand config) e2;
                Issued (rmiCommand config);
                Completed (rmiCommand config) e3;
                Issued (buildCommand config remotePath);
                Completed (buildCommand config remotePath) e4] ++ tail /\
       ((e4 = true /\ res = Some ErrBuild /\ tail = []) \/
        (e4 = false /\ res = Some ErrRun /\
         tail = [Issued (runCommand config);
                 Completed (runCommand config) true]) \/
        (e4 = false /\ res = None /\
         tail = [Issued (runCommand config);
                 Completed (runCommand config) false]))).
Proof.
  unfold ExecuteDockerCommands, expandRemote, getRemoteHomeDir,
    executeRemoteCommandWithOutput, executeRemoteCommandQuiet,
    executeRemoteCommandWithProgress, mbind, mret,
    Remote_bind, Remote_ret, filepath.ToSlash.
  intros H.
  destruct (strings.HasPrefix (RemoteFolder config) "~/").
  - session_step H.
    destruct (failedOf o) eqn:E0.
    + injection H as <- <-. eexists. split; [right; by eexists|]. by left.
    + exists [Issued "echo $HOME"; Completed "echo $HOME" false].
      split; [right; by eexists|]. right. pipeline_steps H.
  - exists []. split; [by left|]. right. pipeline_steps H.
Qed.

(** Reading a trace that is split around one event: the event is looked
    for position by position. *)
Ltac different_commands H :=
  exfalso; clear -H;
  unfold checkCommand, stopCommand, rmiCommand, buildCommand, runCommand in H;
  simpl in H; discriminate H.

Lemma cons_eq_inv {A} (a b : A) (l l' : list A) :
  a :: l = b :: l' -> a = b /\ l = l'.
Proof. by intros [= -> ->]. Qed.

Ltac walk_trace H :=
  match type of H with
  | [] = ?before ++ _ :: _ => by destruct before
  | _ :: _ = ?before ++ _ :: _ =>
      destruct before as [|? before]; cbn [app] in H;
      [ apply cons_eq_inv in H as [H _]; try different_commands H
      | apply cons_eq_inv in H as [<- H]; walk_trace H ]
  end.

Ltac find_event :=
  repeat first [apply list_elem_of_here | apply list_elem_of_further].

(** C7: in every execution of [ExecuteDockerCommands], whenever the build
    command is issued the image-removal command has completed before it,
    and whenever the run command is issued the build command has
    completed before it without an error. *)
Theorem pipeline_order (config : Config) (host : Host)
        (res : option DeployError) (trace : list event) :
  ExecuteDockerCommands config host [] = (res, trace) ->
  forall before after : list event,
    (forall remotePath,
        trace = before ++ Issued (buildCommand config remotePath) :: after ->
        exists err, Completed (rmiCommand config) err ∈ before) /\
    (trace = before ++ Issued (runCommand config) :: after ->
     exists remotePath,
       Completed (buildCommand config remotePath) false ∈ before).
Proof.
  intros Hrun before after.
  apply ExecuteDockerCommands_shape in Hrun
    as (home & Hhome &
        [[_ ->] | (rp & e1 & e2 & e3 & e4 & tail & -> & Htail)]).
  - destruct Hhome as [->|[e ->]];
      (split; [intros remotePath H|intros H]); walk_trace H.
  - destruct Hhome as [->|[e ->]];
      destruct Htail as [(-> & _ & ->)|[(-> & _ & ->)|(-> & _ & ->)]];
      cbn [app]; (split; [intros remotePath H|intros H]); walk_trace H;
      eexists; find_event.
Qed.

Lemma pipeline_order_witness :
  let config := sampleConfig [] in
  let before :=
    [Issued (checkCommand "/srv/app"); Completed (checkCommand "/srv/app") false;
     Issued (stopCommand config); Completed (stopCommand config) true;
     Issued (rmiCommand config); Completed (rmiCommand config) true] in
  let after :=
    [Completed (buildCommand config "/srv/app") false;
     Issued (runCommand config); Completed (runCommand config) false] in
  let trace := before ++ Issued (buildCommand config "/srv/app") :: after in
  ExecuteDockerCommands config sampleHost [] = (None, trace) /\
  exists err, Completed (rmiCommand config) err ∈ before.
Proof.
  split; [reflexivity|].
  eapply (proj1 (pipeline_order (sampleConfig []) sampleHost None _ eq_refl
                   _ _) "/srv/app").
  reflexivity.
Defined.

(** C8: whatever the outcome of the two clean-up steps (stop and remove
    the containers, remove the image), the build command is issued after
    them, and [ExecuteDockerCommands] returns an error only when the
    build or the run has failed. *)
Theorem cleanup_failures_are_ignored (config : Config) (host : Host)
        (res : option DeployError) (trace : list event) (err : bool) :
  ExecuteDockerCommands config host [] = (res, trace) ->
  Completed (stopCommand config) err ∈ trace
  \/ Completed (rmiCommand config) err ∈ trace ->
  (exists remotePath, Issued (buildCommand config remotePath) ∈ trace) /\
  (res = None
   \/ (res = Some ErrBuild /\
       exists remotePath,
         Completed (buildCommand config remotePath) true ∈ trace)
   \/ (res = Some ErrRun /\ Completed (runCommand config) true ∈ trace)).
Proof.
  intros Hrun Hstep.
  apply ExecuteDockerCommands_shape in Hrun
    as (home & Hhome &
        [[_ ->] | (rp & e1 & e2 & e3 & e4 & tail & -> & Htail)]).
  - exfalso.
    destruct Hhome as [->|[e ->]], Hstep as [H|H];
      repeat (apply elem_of_cons in H as [H|H]; [different_commands H|]);
      by apply elem_of_nil in H.
  - split.
    + exists rp. rewrite !elem_of_app. right; left. find_event.
    + destruct Htail as [(-> & -> & ->)|[(-> & -> & ->)|(-> & -> & ->)]].
      * right; left. split; [done|]. exists rp.
        rewrite !elem_of_app. right; left. find_event.
      * right; right. split; [done|].
        rewrite !elem_of_app. right; right. find_event.
      * by left.
Qed.

Lemma cleanup_failures_are_ignored_witness :
  let config := sampleConfig [] in
  let trace :=
    [Issued (checkCommand "/srv/app"); Completed (checkCommand "/srv/app") false;
     Issued (stopCommand config); Completed (stopCommand config) true;
     Issued (rmiCommand config); Completed (rmiCommand config) true;
     Issued (buildCommand config "/srv/app");
     Completed (buildCommand config "/srv/app") false;
     Issued (runCommand config); Completed (runCommand config) false] in
  ExecuteDockerCommands config sampleHost [] = (None, trace) /\
  (Completed (stopCommand config) true ∈ trace
   \/ Completed (rmiCommand config) true ∈ trace) /\
  exists remotePath, Issued (buildCommand config remotePath) ∈ trace.
Proof.
  split; [reflexivity|]. split; [left; find_event|].
  refine (proj1 (cleanup_failures_are_ignored (sampleConfig []) sampleHost
                   None _ true eq_refl _)).
  left. find_event.
Defined.

(** ** C10: the counts of a report *)

Lemma pushLoop_counts (env : Env) (filesToSync : list SyncItem)
      (skippedCount syncedCount skipped' synced' : nat) (remote remote' : fsmap) :
  pushLoop env filesToSync skippedCount syncedCount remote
  = (Ok (skipped', synced'), remote') ->
  synced' + skipped' = syncedCount + skippedCount + length filesToSync.
Proof.
  revert skippedCount syncedCount remote.
  induction filesToSync as [|file rest IH]; intros sk sy remote; simpl.
  - intros [= <- <- _]. lia.
  - destruct (needsUpdate _ _).
    + destruct (uploadFile _ _ _ _) as [remote1 []]; [done|].
      intros H%IH. lia.
    + intros H%IH. lia.
Qed.

Lemma pullLoop_counts (env : Env) (filesToPull : list SyncItem)
      (downloadedCount skippedCount downloaded' skipped' : nat)
      (loc loc' : fsmap) :
  pullLoop env filesToPull downloadedCount skippedCount loc
  = (Ok (downloaded', skipped'), loc') ->
  downloaded' + skipped' = downloadedCount + skippedCount + length filesToPull.
Proof.
  revert downloadedCount skippedCount loc.
  induction filesToPull as [|file rest IH]; intros dl sk loc; simpl.
  - intros [= <- <- _]. lia.
  - destruct (needsUpdate _ _).
    + destruct (downloadFile _ _ _ _) as [loc1 []]; [done|].
      intros H%IH. lia.
    + intros H%IH. lia.
Qed.

(** C10: the report of a push or of a pull that ends without an error
    has [checked = transferred + skipped]. *)
Theorem report_counts_add_up :
  (forall config env localTree remote report remote',
      SyncFiles config env localTree remote = (Ok report, remote') ->
      checked report = transferred report + skipped report) /\
  (forall config env remoteTree loc report loc',
      PullFiles config env remoteTree loc = (Ok report, loc') ->
      checked report = transferred report + skipped report).
Proof.
  split.
  - intros config env localTree remote report remote'. unfold SyncFiles.
    destruct (statOf localTree) as [localInfo|]; [|done].
    destruct (negb (IsDir localInfo)); [done|].
    destruct (expandRemote _ _ _).1 as [remotePath|]; [|done].
    destruct (scanLocal _ _ _ _ _) as [st []]; [|done..].
    destruct (files st) as [|file rest] eqn:Hfiles.
    + by intros [= <- _].
    + destruct (pushLoop _ _ _ _ _) as [[[sk sy]|e] remote1] eqn:Hloop; [|done].
      intros [= <- _]. apply pushLoop_counts in Hloop. simpl in *. lia.
  - intros config env remoteTree loc report loc'. unfold PullFiles.
    destruct (expandRemote _ _ _).1 as [remotePath|]; [|done].
    destruct (MkdirAll _ _ _) as [loc0 []]; [done|].
    destruct (files _) as [|file rest] eqn:Hfiles.
    + by intros [= <- _].
    + destruct (pullLoop _ _ _ _ _) as [[[dl sk]|e] loc1] eqn:Hloop; [|done].
      intros [= <- _]. apply pullLoop_counts in Hloop. simpl in *. lia.
Qed.

Lemma report_counts_add_up_witness :
  let report := {| checked := 1; transferred := 1; skipped := 0; ignored := 1 |} in
  (SyncFiles (sampleConfig ["node_modules/"]) (sampleEnv 10 100) sampleTree ∅).1
  = Ok report /\
  checked report = transferred report + skipped report.
Proof.
  split; [reflexivity|].
  apply (proj1 report_counts_add_up (sampleConfig ["node_modules/"])
           (sampleEnv 10 100) sampleTree ∅ _
           (SyncFiles (sampleConfig ["node_modules/"]) (sampleEnv 10 100)
                      sampleTree ∅).2).
  reflexivity.
Defined.

(** ** C1: an ignored directory *)

(** In a push the walk of an ignored directory that can be read stops at
    the directory: whatever is below it, one is added to the ignored
    count, no file is selected and nothing is made at the destination. *)
Lemma push_prunes_ignored_directory (config : Config) (env : Env)
      (remotePath localPath relPath name : string) (size modTime : Z)
      (names : list tree) (st : Scan) :
  let D := Dir name size modTime (Some names) in
  filepath.Rel (LocalFolder config) localPath = Some relPath ->
  relPath <> "." ->
  (exists info, statOf D = Some info /\ shouldIgnore config relPath info = true) ->
  walk (pushVisit config env remotePath) localPath D st
  = ({| files := files st; ignoredCount := ignoredCount st + 1;
        dest := dest st |}, SkipDir).
Proof.
  intros D Hrel Hroot (info & [= <-] & Hignore). simpl.
  unfold pushVisit. rewrite Hrel.
  apply String.eqb_neq in Hroot. by rewrite Hroot, Hignore.
Qed.

(** In a pull every item of the walker that the rules ignore is counted,
    and the walker steps through everything below an ignored directory
    ([walkerItems] leaves nothing out). *)
Lemma pullScan_ignoredCount (config : Config) (env : Env)
      (remotePath : string) (items : list walkItem) (st : Scan) :
  ignoredCount (pullScan config env remotePath items st)
  = ignoredCount st
    + length (List.filter (pullIgnores config remotePath) items).
Proof.
  unfold pullScan. revert st.
  induction items as [|item items IH]; intros st; simpl; [lia|].
  rewrite IH. unfold pullVisit, pullIgnores, filepath.ToSlash.
  repeat case_match; simplify_eq/=; lia.
Qed.

(** C1 holds for the push and fails for the pull: on a tree with [a.txt]
    beside the directory [node_modules] of two files, with the rule
    ["node_modules/"], the push counts one ignored entry (the directory)
    and the pull counts three (the directory and each file below it). *)
Theorem pull_counts_below_ignored_directory :
  let config := sampleConfig ["node_modules/"] in
  let env := sampleEnv 10 100 in
  (SyncFiles config env sampleTree ∅).1
  = Ok {| checked := 1; transferred := 1; skipped := 0; ignored := 1 |} /\
  (PullFiles config env sampleTree ∅).1
  = Ok {| checked := 1; transferred := 1; skipped := 0; ignored := 3 |}.
Proof. split; reflexivity. Qed.

(** ** Reasoning about the walk *)

(** Induction on a tree, with the property for every entry of a
    directory. *)
Lemma tree_ind' (P : tree -> Prop) :
  (forall name size modTime, P (File name size modTime)) ->
  (forall name, P (Broken name)) ->
  (forall name size modTime, P (Dir name size modTime None)) ->
  (forall name size modTime names,
      Forall P names -> P (Dir name size modTime (Some names))) ->
  forall t, P t.
Proof.
  intros HFile HBroken HNone HSome.
  refine (fix IH (t : tree) : P t :=
            match t with
            | File name size modTime => HFile name size modTime
            | Broken name => HBroken name
            | Dir name size modTime None => HNone name size modTime
            | Dir name size modTime (Some names) =>
                HSome name size modTime names
                      ((fix all (l : list tree) : Forall P l :=
                          match l with
                          | [] => Forall_nil_2 P
                          | child :: l' =>
                              Forall_cons_2 P child l' (IH child) (all l')
                          end) names)
            end).
Qed.

Section WalkFacts.
Context {S : Type}.

Lemma walk_Dir (walkFn : WalkFunc S) (path name : string) (size modTime : Z)
      (names : list tree) (st : S) :
  walk walkFn path (Dir name size modTime (Some names)) st
  = let '(st1, err1) :=
      walkFn path (statOf (Dir name size modTime (Some names))) false st in
    match err1 with
    | Nil => walkEntries walkFn path names st1
    | _ => (st1, err1)
    end.
Proof. reflexivity. Qed.

(** What every call of the function preserves, the walk preserves. *)
Lemma walk_preserves (walkFn : WalkFunc S) (R : S -> S -> Prop) :
  (forall st, R st st) ->
  (forall st1 st2 st3, R st1 st2 -> R st2 st3 -> R st1 st3) ->
  (forall path info err st, R st (walkFn path info err st).1) ->
  forall t path st, R st (walk walkFn path t st).1.
Proof.
  intros Hrefl Htrans Hfn.
  induction t as [| | |name size modTime names IH] using tree_ind';
    intros path st; try apply Hfn.
  rewrite walk_Dir.
  pose proof (Hfn path (statOf (Dir name size modTime (Some names))) false st)
    as Hst.
  destruct (walkFn path _ false st) as [st1 []]; simpl in *; try done.
  apply (Htrans _ st1); [done|]. clear Hst st.
  revert st1. induction IH as [|child names Hchild _ IHnames]; intros st.
  - apply Hrefl.
  - cbn [walkEntries].
    assert (Hstep : R st (walk walkFn (filepath.Join path (nameOf child))
                               child st).1) by apply Hchild.
    destruct child as [cname csize ctime|cname csize ctime centries|cname].
    + destruct (walk _ _ _ _) as [st1 []]; simpl in *; try done.
      by apply (Htrans _ st1).
    + destruct (walk _ _ _ _) as [st1 []]; simpl in *; try done;
        by apply (Htrans _ st1).
    + simpl in Hstep.
      destruct (walkFn _ None true st) as [st1 []]; simpl in *; try done;
        by apply (Htrans _ st1).
Qed.

End WalkFacts.

(** Two walks of the same tree whose functions agree on the error they
    return, and keep the states related, end in related states with the
    same error. *)
Lemma walk_related {S S' : Type} (fn : WalkFunc S) (fn' : WalkFunc S')
      (Q : S -> S' -> Prop) :
  (forall path info err st st',
      Q st st' ->
      Q (fn path info err st).1 (fn' path info err st').1
      /\ (fn path info err st).2 = (fn' path info err st').2) ->
  forall t path st st',
    Q st st' ->
    Q (walk fn path t st).1 (walk fn' path t st').1
    /\ (walk fn path t st).2 = (walk fn' path t st').2.
Proof.
  intros Hfn.
  induction t as [| | |name size modTime names IH] using tree_ind';
    intros path st st' HQ; try by apply Hfn.
  rewrite (walk_Dir fn), (walk_Dir fn').
  destruct (Hfn path (statOf (Dir name size modTime (Some names))) false
                st st' HQ) as [HQ1 He].
  destruct (fn path _ false st) as [st1 e], (fn' path _ false st') as [st1' e'].
  simpl in *. subst e'. destruct e; try done.
  clear HQ st st'. revert st1 st1' HQ1.
  induction IH as [|child names Hchild _ IHnames]; intros st st' HQ.
  - done.
  - cbn [walkEntries].
    destruct child as [cname csize ctime|cname csize ctime centries|cname].
    + destruct (Hchild (filepath.Join path cname) st st' HQ) as [HQ1 He].
      cbn [nameOf].
      destruct (walk fn _ _ st) as [st1 e], (walk fn' _ _ st') as [st1' e'].
      simpl in *. subst e'. destruct e; auto.
    + destruct (Hchild (filepath.Join path cname) st st' HQ) as [HQ1 He].
      cbn [nameOf].
      destruct (walk fn _ _ st) as [st1 e], (walk fn' _ _ st') as [st1' e'].
      simpl in *. subst e'. destruct e; auto.
    + destruct (Hfn (filepath.Join path cname) None true st st' HQ)
        as [HQ1 He].
      cbn [nameOf].
      destruct (fn _ None true st) as [st1 e], (fn' _ None true st') as [st1' e'].
      simpl in *. subst e'. destruct e; auto.
Qed.


(** ** Facts about the destination *)

#[local] Instance onlyNewDirs_refl : Reflexive onlyNewDirs.
Proof. intros fs path. by left. Qed.

#[local] Instance onlyNewDirs_trans : Transitive onlyNewDirs.
Proof.
  intros fs fs' fs'' H1 H2 path.
  destruct (H2 path) as [->|[Hnone Hdir]]; [apply H1|].
  destruct (H1 path) as [E|(_ & info & E & _)]; [|congruence].
  right. split; [congruence|done].
Qed.

Lemma onlyNewDirs_lookup (fs fs' : fsmap) (path : string) (info : FileInfo) :
  onlyNewDirs fs fs' -> fs !! path = Some info -> fs' !! path = Some info.
Proof. intros H E. destruct (H path) as [->|[? _]]; congruence. Qed.

Lemma MkdirAll_onlyNewDirs (env : Env) (path : string) (fs : fsmap) :
  onlyNewDirs fs (MkdirAll env path fs).1.
Proof.
  unfold MkdirAll.
  destruct (fs !! filepath.Clean path) as [info|] eqn:E; [done|].
  destruct (mkdirFails env _); [done|]. simpl. intros p.
  destruct (decide (p = filepath.Clean path)) as [->|Hne].
  - right. split; [done|]. rewrite lookup_insert_eq. by eexists.
  - left. by rewrite lookup_insert_ne.
Qed.

(** ** Facts about the first pass of a push *)

Lemma pushVisit_onlyNewDirs (config : Config) (env : Env) (remotePath : string)
      (path : string) (info : option FileInfo) (err : bool) (st : Scan) :
  onlyNewDirs (dest st) (dest (pushVisit config env remotePath path info err st).1).
Proof.
  unfold pushVisit.
  repeat case_match; simpl; try reflexivity. apply MkdirAll_onlyNewDirs.
Qed.

Lemma walk_onlyNewDirs (config : Config) (env : Env) (remotePath : string)
      (t : tree) (path : string) (st : Scan) :
  onlyNewDirs (dest st)
              (dest (walk (pushVisit config env remotePath) path t st).1).
Proof.
  apply (walk_preserves _ (fun st st' => onlyNewDirs (dest st) (dest st'))).
  - intros ?. reflexivity.
  - intros ? ? ? ? ?. by etransitivity.
  - intros. apply pushVisit_onlyNewDirs.
Qed.

(** The files selected, the ignored count and the error of the first
    pass do not depend on the endpoints. *)
Lemma pushVisit_same_scan (config : Config) (env env' : Env)
      (remotePath path : string) (info : option FileInfo) (err : bool)
      (st st' : Scan) :
  files st = files st' /\ ignoredCount st = ignoredCount st' ->
  let r := pushVisit config env remotePath path info err st in
  let r' := pushVisit config env' remotePath path info err st' in
  (files r.1 = files r'.1 /\ ignoredCount r.1 = ignoredCount r'.1)
  /\ r.2 = r'.2.
Proof.
  intros [Hf Hi]. unfold pushVisit.
  repeat case_match; simpl; rewrite ?Hf, ?Hi; done.
Qed.

Lemma scanLocal_same_scan (config : Config) (env env' : Env)
      (remotePath : string) (localTree : tree) (remote remote' : fsmap) :
  let r := scanLocal config env remotePath localTree remote in
  let r' := scanLocal config env' remotePath localTree remote' in
  files r.1 = files r'.1 /\ ignoredCount r.1 = ignoredCount r'.1 /\ r.2 = r'.2.
Proof.
  unfold scanLocal, Walk.
  destruct (walk_related (pushVisit config env remotePath)
              (pushVisit config env' remotePath)
              (fun st st' => files st = files st'
                             /\ ignoredCount st = ignoredCount st')
              (fun path info err st st' H =>
                 pushVisit_same_scan config env env' remotePath path info err
                                     st st' H)
              localTree (LocalFolder config)
              {| files := []; ignoredCount := 0; dest := remote |}
              {| files := []; ignoredCount := 0; dest := remote' |})
    as [[Hf Hi] He]; [done|].
  destruct (walk _ _ _ _) as [st e], (walk _ _ _ _) as [st' e'].
  simpl in *. subst e'. by destruct e.
Qed.

Lemma scanLocal_onlyNewDirs (config : Config) (env : Env)
      (remotePath : string) (localTree : tree) (remote : fsmap) :
  onlyNewDirs remote
              (dest (scanLocal config env remotePath localTree remote).1).
Proof.
  unfold scanLocal, Walk.
  pose proof (walk_onlyNewDirs config env remotePath localTree
                (LocalFolder config)
                {| files := []; ignoredCount := 0; dest := remote |}) as H.
  by destruct (walk _ _ _ _) as [st []].
Qed.


(** ** C2: a failing read *)




(** A pull from a remote folder that cannot be read at all selects
    nothing and ends without an error. *)
Lemma PullFiles_unreadable_root (config : Config) (env : Env) (name : string)
      (remotePath : string) (loc loc1 : fsmap) :
  (expandRemote config (host env) []).1 = Some remotePath ->
  MkdirAll env (LocalFolder config) loc = (loc1, false) ->
  PullFiles config env (Broken name) loc
  = (Ok {| checked := 0; transferred := 0; skipped := 0; ignored := 0 |}, loc1).
Proof. intros Hhome Hmkdir. unfold PullFiles. by rewrite Hhome, Hmkdir. Qed.



(** ** Facts about the second pass of a push *)

Lemma writeFile_other (env : Env) (dst : string) (written : Z) (fs : fsmap)
      (key : string) :
  key <> destKey dst -> (writeFile env dst written fs).1 !! key = fs !! key.
Proof.
  intros Hne. unfold writeFile, destKey in *.
  destruct (fs !! filepath.Clean dst) as [[? [] ? ?]|]; simpl;
    by rewrite ?lookup_insert_ne.
Qed.

Lemma uploadFile_other (env : Env) (localPath remotePath : string)
      (fs : fsmap) (key : string) :
  key <> destKey remotePath ->
  (uploadFile env localPath remotePath fs).1 !! key = fs !! key.
Proof.
  intros Hne. unfold uploadFile, createAndCopy.
  destruct (copy env localPath); simpl; by rewrite ?writeFile_other.
Qed.

(** An upload without an error leaves the copied bytes at the
    destination, stamped by the destination's clock. *)
Lemma uploadFile_ok (env : Env) (localPath remotePath : string)
      (fs fs' : fsmap) :
  uploadFile env localPath remotePath fs = (fs', false) ->
  exists written,
    copy env localPath = Copied written /\
    Stat fs' remotePath = Some (newFile env (destKey remotePath) written).
Proof.
  unfold uploadFile, createAndCopy, writeFile, Stat, destKey.
  destruct (copy env localPath) as [| | |written|written]; try done.
  intros H. exists written. split; [done|].
  destruct (fs !! filepath.Clean remotePath) as [[? [] ? ?]|];
    simplify_eq/=; by rewrite lookup_insert_eq.
Qed.

Lemma needsUpdate_fresh (env : Env) (key : string) (written : Z)
      (info : FileInfo) :
  written = Size info ->
  (ModTime info - time.Second < clock env key)%Z ->
  needsUpdate (Some (newFile env key written)) info = false.
Proof.
  intros -> Hclock. unfold needsUpdate, time.After, time.Add. simpl.
  rewrite Z.eqb_refl. simpl.
  destruct (Z.ltb_spec (ModTime info + - time.Second) (clock env key)); [done|lia].
Qed.

(** The second pass writes only at the destinations of its files. *)
Lemma pushLoop_other (env : Env) (filesToSync : list SyncItem)
      (skippedCount syncedCount : nat) (remote : fsmap) (key : string) :
  key ∉ map (fun f => destKey (remotePath f)) filesToSync ->
  (pushLoop env filesToSync skippedCount syncedCount remote).2 !! key
  = remote !! key.
Proof.
  revert skippedCount syncedCount remote.
  induction filesToSync as [|file rest IH]; intros sk sy remote Hkey; [done|].
  simpl in *. apply not_elem_of_cons in Hkey as [Hne Hkey].
  destruct (needsUpdate _ _); [|by apply IH].
  pose proof (uploadFile_other env (localPath file) (remotePath file) remote
                key Hne) as Hup.
  destruct (uploadFile _ _ _ _) as [remote1 []]; simpl in *; [done|].
  by rewrite IH.
Qed.

(** After a second pass without an error every file is up to date at the
    destination, when the files have distinct destinations, every copy
    has the size the scan saw and the destination's clock is not more
    than a second behind the files' times. *)
Lemma pushLoop_up_to_date (env : Env) (filesToSync : list SyncItem)
      (skippedCount syncedCount : nat) (remote remote' : fsmap)
      (counts : nat * nat) :
  NoDup (map (fun f => destKey (remotePath f)) filesToSync) ->
  (forall f n, f ∈ filesToSync ->
               copy env (localPath f) = Copied n -> n = Size (info f)) ->
  (forall f, f ∈ filesToSync ->
             (ModTime (info f) - time.Second
              < clock env (destKey (remotePath f)))%Z) ->
  pushLoop env filesToSync skippedCount syncedCount remote
  = (Ok counts, remote') ->
  forall f, f ∈ filesToSync ->
            needsUpdate (Stat remote' (remotePath f)) (info f) = false.
Proof.
  revert skippedCount syncedCount remote.
  induction filesToSync as [|file rest IH];
    intros sk sy remote Hnodup Hsize Hclock Hloop f Hf;
    [by apply elem_of_nil in Hf|].
  apply NoDup_cons in Hnodup as [Hfresh Hnodup]. simpl in Hloop.
  assert (Hrest : forall remote1 sk1 sy1,
             pushLoop env rest sk1 sy1 remote1 = (Ok counts, remote') ->
             needsUpdate (Stat remote1 (remotePath file)) (info file) = false ->
             needsUpdate (Stat remote' (remotePath f)) (info f) = false).
  { intros remote1 sk1 sy1 Hloop1 Hfile.
    apply elem_of_cons in Hf as [->|Hf].
    - pose proof (pushLoop_other env rest sk1 sy1 remote1 _ Hfresh) as Hkeep.
      rewrite Hloop1 in Hkeep. unfold Stat, destKey in *. simpl in Hkeep.
      by rewrite Hkeep.
    - eapply IH; eauto.
      + intros f' n Hf'. apply Hsize. by apply elem_of_cons; right.
      + intros f' Hf'. apply Hclock. by apply elem_of_cons; right. }
  destruct (needsUpdate (Stat remote (remotePath file)) (info file)) eqn:Hneeds.
  - destruct (uploadFile _ _ _ _) as [remote1 []] eqn:Hup; [done|].
    apply uploadFile_ok in Hup as (written & Hcopy & Hstat).
    eapply Hrest; [done|]. rewrite Hstat.
    apply needsUpdate_fresh.
    + eapply Hsize; [|done]. by apply elem_of_cons; left.
    + apply Hclock. by apply elem_of_cons; left.
  - by eapply Hrest.
Qed.

(** A second pass over files that are all up to date skips them all and
    writes nothing. *)
Lemma pushLoop_all_up_to_date (env : Env) (filesToSync : list SyncItem)
      (skippedCount syncedCount : nat) (remote : fsmap) :
  (forall f, f ∈ filesToSync ->
             needsUpdate (Stat remote (remotePath f)) (info f) = false) ->
  pushLoop env filesToSync skippedCount syncedCount remote
  = (Ok (skippedCount + length filesToSync, syncedCount), remote).
Proof.
  revert skippedCount.
  induction filesToSync as [|file rest IH]; intros sk Hall; simpl.
  - by rewrite Nat.add_0_r.
  - rewrite Hall by (by apply elem_of_cons; left).
    rewrite IH by (intros f Hf; apply Hall; by apply elem_of_cons; right).
    do 3 f_equal. lia.
Qed.

Lemma needsUpdate_preserved (fs fs' : fsmap) (path : string) (info : FileInfo) :
  onlyNewDirs fs fs' ->
  needsUpdate (Stat fs path) info = false ->
  needsUpdate (Stat fs' path) info = false.
Proof.
  unfold Stat. intros Hdirs Hneeds.
  destruct (fs !! filepath.Clean path) as [destInfo|] eqn:E; [|done].
  by rewrite (onlyNewDirs_lookup _ _ _ _ Hdirs E).
Qed.

(** ** C6: pushing twice *)

(** C6, as stated, fails when the remote clock is behind the local
    files: the upload of [a.txt], modified at second 5, is stamped
    second 1 by the remote, so the second push finds the remote copy too
    old and uploads the file again. *)
Lemma second_push_uploads_again_counterexample :
  let config := sampleConfig ["node_modules/"] in
  let env := sampleEnv 10 1000000000 in
  let run1 := SyncFiles config env sampleTree ∅ in
  let run2 := SyncFiles config env sampleTree run1.2 in
  run1.1 = Ok {| checked := 1; transferred := 1; skipped := 0; ignored := 1 |} /\
  run2.1 = Ok {| checked := 1; transferred := 1; skipped := 0; ignored := 1 |}.
Proof. by vm_compute. Qed.

(** What a push without an error says about its two passes. *)
Lemma SyncFiles_ok (config : Config) (env : Env) (localTree : tree)
      (remote remote' : fsmap) (report : SyncReport) :
  SyncFiles config env localTree remote = (Ok report, remote') ->
  exists localInfo remotePath st,
    statOf localTree = Some localInfo /\ IsDir localInfo = true /\
    (expandRemote config (host env) []).1 = Some remotePath /\
    scanLocal config env remotePath localTree
              (MkdirAll env remotePath remote).1 = (st, Nil) /\
    exists counts,
      pushLoop env (files st) 0 0 (dest st) = (Ok counts, remote').
Proof.
  unfold SyncFiles.
  destruct (statOf localTree) as [localInfo|]; [|done].
  destruct (IsDir localInfo) eqn:Hdir; [|done]. cbn [negb].
  destruct (expandRemote _ _ _).1 as [remotePath|]; [|done].
  destruct (scanLocal _ _ _ _ _) as [st []] eqn:Hscan; [|done..].
  intros H. exists localInfo, remotePath, st. do 4 (split; [done|]).
  destruct (files st) as [|file rest] eqn:Hfiles; lazy beta match in H.
  - injection H as _ <-. by exists (0, 0).
  - destruct (pushLoop env (file :: rest) 0 0 (dest st))
      as [[[sk sy]|e] remote1]; lazy beta match in H; [|done].
    injection H as _ <-. by eexists.
Qed.

(** C6 (amended): when a push ends without an error, its files have
    distinct destinations, every copy had the size the scan saw (no
    local change), the remote clock stamped every file later than one
    second before the file's local modification time, and the remote
    folder resolves to the same path again, then a second push of the
    same tree onto the resulting remote file system ends without an
    error, uploads nothing and skips every file it checks. *)
Theorem second_push_transfers_nothing (config : Config) (env1 env2 : Env)
        (localTree : tree) (remote0 remote1 : fsmap) (report1 : SyncReport) :
  SyncFiles config env1 localTree remote0 = (Ok report1, remote1) ->
  (expandRemote config (host env2) []).1
  = (expandRemote config (host env1) []).1 ->
  NoDup (map (fun f => destKey (remotePath f)) (planOf config env1 localTree)) ->
  (forall f n, f ∈ planOf config env1 localTree ->
               copy env1 (localPath f) = Copied n -> n = Size (info f)) ->
  (forall f, f ∈ planOf config env1 localTree ->
             (ModTime (info f) - time.Second
              < clock env1 (destKey (remotePath f)))%Z) ->
  exists report2 remote2,
    SyncFiles config env2 localTree remote1 = (Ok report2, remote2) /\
    transferred report2 = 0 /\
    skipped report2 = checked report2.
Proof.
  intros Hrun1 Hhome Hnodup Hsize Hclock.
  apply SyncFiles_ok in Hrun1
    as (localInfo & remotePath & st1 & Hstat & Hdir & Hexp & Hscan1
        & counts & Hloop1).
  unfold planOf in *. rewrite Hexp in *.
  (* the plan of the first run is the plan of any run *)
  destruct (scanLocal_same_scan config env1 env1 remotePath localTree
              (MkdirAll env1 remotePath remote0).1 ∅) as (Hplan1 & _ & _).
  rewrite Hscan1 in Hplan1. simpl in Hplan1. rewrite <- Hplan1 in *.
  (* after the first run every file is up to date *)
  pose proof (pushLoop_up_to_date env1 (files st1) 0 0 (dest st1) remote1
                counts Hnodup Hsize Hclock Hloop1) as Hfresh.
  (* the second run *)
  destruct (scanLocal_same_scan config env2 env1 remotePath localTree
              (MkdirAll env2 remotePath remote1).1
              (MkdirAll env1 remotePath remote0).1) as (Hplan2 & Hign2 & Herr2).
  pose proof (scanLocal_onlyNewDirs config env2 remotePath localTree
                (MkdirAll env2 remotePath remote1).1) as Hdirs.
  rewrite Hscan1 in Hplan2, Hign2, Herr2.
  unfold SyncFiles. rewrite Hstat, Hdir, Hhome. cbn [negb].
  destruct (scanLocal config env2 _ _ _) as [st2 e2].
  cbn [fst snd] in *. subst e2. rewrite Hplan2.
  destruct (files st1) as [|file rest] eqn:Hfiles; [by eexists _, _|].
  rewrite pushLoop_all_up_to_date.
  - by eexists _, _.
  - intros f Hf. eapply needsUpdate_preserved; [|by apply Hfresh].
    etransitivity; [apply MkdirAll_onlyNewDirs|done].
Qed.

Lemma second_push_transfers_nothing_witness :
  let config := sampleConfig ["node_modules/"] in
  let env := sampleEnv 10 6000000000 in
  let run1 := SyncFiles config env sampleTree ∅ in
  run1.1 = Ok {| checked := 1; transferred := 1; skipped := 0; ignored := 1 |} /\
  exists report2 remote2,
    SyncFiles config env sampleTree run1.2 = (Ok report2, remote2) /\
    transferred report2 = 0 /\
    skipped report2 = checked report2.
Proof.
  split; [reflexivity|].
  apply (second_push_transfers_nothing (sampleConfig ["node_modules/"])
           (sampleEnv 10 6000000000) (sampleEnv 10 6000000000) sampleTree ∅ _
           {| checked := 1; transferred := 1; skipped := 0; ignored := 1 |}).
  - reflexivity.
  - reflexivity.
  - vm_compute. apply NoDup_singleton.
  - intros f n Hf Hcopy. vm_compute in Hf.
    apply list_elem_of_singleton in Hf. subst f.
    injection Hcopy as <-. reflexivity.
  - intros f Hf. vm_compute in Hf.
    apply list_elem_of_singleton in Hf. subst f. reflexivity.
Defined.

(** * Further properties *)

(** ** [strings.TrimSpace] *)

Section TrimSpaceFacts.
Import strings.

Lemma length_take (n : nat) (s : string) : String.length (take n s) <= n.
Proof.
  revert s; induction n as [|n IH]; intros [|c s]; simpl; try lia.
  specialize (IH s). lia.
Qed.

Lemma take_drop (n : nat) (s : string) : s = take n s +:+ drop n s.
Proof.
  revert s; induction n as [|n IH]; intros [|c s]; try done.
  change (String c s = String c (take n s +:+ drop n s)). by rewrite <- IH.
Qed.

Lemma continuation_app (lo hi x : N) (s s' rest : string) :
  utf8.continuation lo hi s = Some (x, s') ->
  utf8.continuation lo hi (s +:+ rest) = Some (x, s' +:+ rest).
Proof.
  unfold utf8.continuation. destruct s as [|c s0]; [done|].
  change (String c s0 +:+ rest) with (String c (s0 +:+ rest)).
  cbv beta iota. destruct (_ && _); [|done]. by intros [= <- <-].
Qed.

Lemma IsSpace_RuneError : unicode.IsSpace utf8.RuneError = false.
Proof. reflexivity. Qed.

(** A white-space rune at the head of a string is at the head of every
    string that starts with it. *)
Lemma DecodeRuneInString_app (s rest : string) :
  unicode.IsSpace (utf8.DecodeRuneInString s).1 = true ->
  utf8.DecodeRuneInString (s +:+ rest) = utf8.DecodeRuneInString s.
Proof.
  assert (Hbad : forall n : nat,
             unicode.IsSpace (utf8.RuneError, n).1 = true -> False).
  { intros n. cbn [fst]. by rewrite IsSpace_RuneError. }
  destruct s as [|c0 s1]; [by intros ?%Hbad|].
  change (String c0 s1 +:+ rest) with (String c0 (s1 +:+ rest)).
  unfold utf8.DecodeRuneInString. cbv beta iota zeta.
  destruct (_ <? utf8.RuneSelf)%N; [done|].
  destruct (_ || _); [done|].
  destruct (utf8.continuation _ _ s1) as [[x1 s2]|] eqn:E1;
    [|by intros ?%Hbad].
  rewrite (continuation_app _ _ _ _ _ rest E1).
  destruct (_ <? 224)%N; [done|].
  destruct (utf8.continuation _ _ s2) as [[x2 s3]|] eqn:E2;
    [|by intros ?%Hbad].
  rewrite (continuation_app _ _ _ _ _ rest E2).
  destruct (_ <? 240)%N; [done|].
  destruct (utf8.continuation _ _ s3) as [[x3 s4]|] eqn:E3;
    [|by intros ?%Hbad].
  by rewrite (continuation_app _ _ _ _ _ rest E3).
Qed.

Lemma leadingSpace_app (s rest : string) :
  leadingSpace (s +:+ rest) = 0 -> leadingSpace s = 0.
Proof.
  unfold leadingSpace. intros H.
  destruct (unicode.IsSpace (utf8.DecodeRuneInString s).1) eqn:E.
  - rewrite (DecodeRuneInString_app s rest E) in H.
    destruct (utf8.DecodeRuneInString s) as [r n]. simpl in E. by rewrite E in *.
  - destruct (utf8.DecodeRuneInString s) as [r n]. simpl in E. by rewrite E.
Qed.

Lemma trimLeftLoop_start (fuel : nat) (s : string) :
  String.length s <= fuel -> leadingSpace (trimLeftLoop fuel s) = 0.
Proof.
  revert s. induction fuel as [|fuel IH]; intros s Hlen.
  - by destruct s; [|simpl in Hlen; lia].
  - cbn [trimLeftLoop]. destruct (leadingSpace s) as [|n] eqn:E; [done|].
    apply IH. pose proof (length_drop (S n) s). lia.
Qed.

Lemma trimLeftSpace_id (s : string) : leadingSpace s = 0 -> trimLeftSpace s = s.
Proof.
  intros E. unfold trimLeftSpace.
  destruct (String.length s); cbn [trimLeftLoop]; by rewrite ?E.
Qed.

Lemma trimRightLoop_end (fuel : nat) (s : string) :
  String.length s <= fuel -> trailingSpace (trimRightLoop fuel s) = 0.
Proof.
  revert s. induction fuel as [|fuel IH]; intros s Hlen.
  - by destruct s; [|simpl in Hlen; lia].
  - cbn [trimRightLoop]. destruct (trailingSpace s) as [|n] eqn:E; [done|].
    apply IH. pose proof (length_take (String.length s - S n) s).
    destruct s; simpl in *; lia.
Qed.

Lemma trimRightSpace_id (s : string) :
  trailingSpace s = 0 -> trimRightSpace s = s.
Proof.
  intros E. unfold trimRightSpace.
  destruct (String.length s); cbn [trimRightLoop]; by rewrite ?E.
Qed.

Lemma append_nil_r (s : string) : s +:+ "" = s.
Proof.
  induction s as [|c s IH]; [done|].
  change (String c (s +:+ "") = String c s). by rewrite IH.
Qed.

Lemma append_assoc (s t u : string) : (s +:+ t) +:+ u = s +:+ (t +:+ u).
Proof.
  induction s as [|c s IH]; [done|].
  change (String c ((s +:+ t) +:+ u) = String c (s +:+ (t +:+ u))).
  by rewrite IH.
Qed.

(** What is trimmed at the end is the start of the string. *)
Lemma trimRightLoop_prefix (fuel : nat) (s : string) :
  exists rest, s = trimRightLoop fuel s +:+ rest.
Proof.
  revert s. induction fuel as [|fuel IH]; intros s.
  - exists "". by rewrite append_nil_r.
  - cbn [trimRightLoop]. destruct (trailingSpace s) as [|n].
    + exists "". by rewrite append_nil_r.
    + destruct (IH (take (String.length s - S n) s)) as [rest Hrest].
      exists (rest +:+ drop (String.length s - S n) s).
      rewrite <- append_assoc, <- Hrest. apply take_drop.
Qed.

(** Trimming twice is trimming once. *)
Lemma TrimSpace_idem (s : string) : TrimSpace (TrimSpace s) = TrimSpace s.
Proof.
  unfold TrimSpace.
  rewrite (trimLeftSpace_id (trimRightSpace _)).
  - apply trimRightSpace_id. by apply trimRightLoop_end.
  - unfold trimRightSpace.
    destruct (trimRightLoop_prefix (String.length (trimLeftSpace s))
                                   (trimLeftSpace s)) as [rest Hrest].
    apply (leadingSpace_app _ rest). rewrite <- Hrest.
    by apply trimLeftLoop_start.
Qed.

End TrimSpaceFacts.

(** ** [LoadConfig] *)

Lemma appendPatterns_Forall (P : string -> Prop) (patterns : list string)
      (value : string) :
  (forall s, filepath.isEmpty (strings.TrimSpace s) = false ->
             P (strings.TrimSpace s)) ->
  Forall P patterns -> Forall P (appendPatterns patterns value).
Proof.
  intros HP. unfold appendPatterns.
  generalize (strings.Split value ","%char) as pieces.
  intros pieces. revert patterns.
  induction pieces as [|piece pieces IH]; intros patterns Hall; [done|].
  simpl. apply IH.
  destruct (filepath.isEmpty _) eqn:E; [done|].
  apply Forall_app. split; [done|]. constructor; [by apply HP|done].
Qed.

(** A property of the empty string and of every trimmed value that holds
    of the values set so far holds after one more line. *)
Lemma configLine_allValues (P : string -> Prop) (config : Config)
      (text : string) :
  (forall s, P (strings.TrimSpace s)) ->
  allValues P config -> allValues P (configLine config text).
Proof.
  intros HP Hall. unfold configLine.
  destruct (_ || _); [done|].
  destruct (strings.SplitN2 _ _) as [|key [|value [|? ?]]]; try done.
  unfold setKey, allValues in *.
  destruct Hall as (? & ? & ? & ? & ? & ? & ? & ? & ?).
  repeat case_match; simpl; repeat split; try done.
  apply appendPatterns_Forall; [|done]. intros s _. apply HP.
Qed.

Lemma configLines_allValues (P : string -> Prop) (lines : list string)
      (config : Config) :
  (forall s, P (strings.TrimSpace s)) ->
  allValues P config -> allValues P (foldl configLine config lines).
Proof.
  intros HP. revert config.
  induction lines as [|text lines IH]; intros config Hall; [done|].
  simpl. by apply IH, configLine_allValues.
Qed.

Lemma configLine_patterns_not_empty (config : Config) (text : string) :
  Forall (fun p => p <> "") (IgnorePatterns config) ->
  Forall (fun p => p <> "") (IgnorePatterns (configLine config text)).
Proof.
  intros Hall. unfold configLine.
  destruct (_ || _); [done|].
  destruct (strings.SplitN2 _ _) as [|key [|value [|? ?]]]; try done.
  unfold setKey. repeat case_match; simpl; try done.
  apply appendPatterns_Forall; [|done].
  intros s Hs Heq. by rewrite Heq in Hs.
Qed.

Lemma configLines_patterns_not_empty (lines : list string) (config : Config) :
  Forall (fun p => p <> "") (IgnorePatterns config) ->
  Forall (fun p => p <> "")
         (IgnorePatterns (foldl configLine config lines)).
Proof.
  revert config.
  induction lines as [|text lines IH]; intros config Hall; [done|].
  simpl. by apply IH, configLine_patterns_not_empty.
Qed.

Lemma isEmpty_false (s : string) : filepath.isEmpty s = false -> s <> "".
Proof. by destruct s. Qed.

(** X1: a configuration that [LoadConfig] returns is complete: the five
    required values and the local folder are not empty, and there is at
    least one ignore pattern, none of them empty. *)
Theorem LoadConfig_complete (open : string -> option ConfigFile)
        (filename : string) (config : Config) :
  LoadConfig open filename = Loaded config ->
  RemoteServer config <> "" /\ SSHUsername config <> "" /\
  SSHPassword config <> "" /\ RemoteFolder config <> "" /\
  DockerImageName config <> "" /\ LocalFolder config <> "" /\
  IgnorePatterns config <> [] /\
  Forall (fun p => p <> "") (IgnorePatterns config).
Proof.
  unfold LoadConfig. destruct (open filename) as [file|]; [|done].
  destruct (scanError file); [done|].
  pose proof (configLines_patterns_not_empty (scanned file) emptyConfig
                (Forall_nil_2 _)) as Hpatterns.
  unfold finishConfig.
  destruct (_ || _) eqn:Hreq; [done|].
  repeat (apply orb_false_iff in Hreq as [Hreq ?]).
  intros [= <-]. simpl.
  repeat (split; [by apply isEmpty_false|]).
  split; [by destruct (filepath.isEmpty (LocalFolder _)) eqn:E;
             [|apply isEmpty_false]|].
  destruct (IgnorePatterns _) as [|p ps]; [|done].
  split; [done|]. by repeat constructor.
Qed.

Lemma LoadConfig_complete_witness :
  LoadConfig sampleOpen "pooshit_config" = Loaded sampleLoaded /\
  RemoteServer sampleLoaded <> "" /\ IgnorePatterns sampleLoaded <> [].
Proof.
  assert (H : LoadConfig sampleOpen "pooshit_config" = Loaded sampleLoaded)
    by (vm_compute; reflexivity).
  split; [exact H|].
  pose proof (LoadConfig_complete sampleOpen "pooshit_config" _ H)
    as (H1 & _ & _ & _ & _ & _ & H7 & _).
  by split.
Defined.

(** X2: no value of a configuration that [LoadConfig] returns has white
    space around it: every value, and every ignore pattern, is its own
    trimmed form. *)
Theorem LoadConfig_trimmed (open : string -> option ConfigFile)
        (filename : string) (config : Config) :
  LoadConfig open filename = Loaded config ->
  allValues (fun value => strings.TrimSpace value = value) config.
Proof.
  unfold LoadConfig. destruct (open filename) as [file|]; [|done].
  destruct (scanError file); [done|].
  pose proof (configLines_allValues
                (fun value => strings.TrimSpace value = value)
                (scanned file) emptyConfig TrimSpace_idem) as Hall.
  unfold finishConfig. destruct (_ || _); [done|]. intros [= <-].
  destruct Hall as (? & ? & ? & ? & ? & ? & ? & ? & ?);
    [by repeat split|].
  unfold allValues. simpl. repeat split; try done.
  - by destruct (filepath.isEmpty _).
  - destruct (IgnorePatterns _); [by repeat constructor|done].
Qed.

Lemma LoadConfig_trimmed_witness :
  LoadConfig sampleOpen "pooshit_config" = Loaded sampleLoaded /\
  allValues (fun value => strings.TrimSpace value = value) sampleLoaded.
Proof.
  assert (H : LoadConfig sampleOpen "pooshit_config" = Loaded sampleLoaded)
    by (vm_compute; reflexivity).
  split; [exact H|].
  exact (LoadConfig_trimmed sampleOpen "pooshit_config" _ H).
Defined.

Lemma configLine_noise (config : Config) (text : string) :
  noiseLine text = true -> configLine config text = config.
Proof.
  unfold noiseLine, configLine.
  destruct (filepath.isEmpty _ || strings.HasPrefix _ _); [done|]. simpl.
  destruct (strings.SplitN2 _ _) as [|key [|value [|? ?]]]; try done.
  unfold setKey, knownKeys. simpl.
  intros H%negb_true_iff. repeat (apply orb_false_iff in H as [? H]).
  by repeat case_match.
Qed.

(** X3: a line that is blank, a comment, has no colon or has an unknown
    key changes nothing: the file with the line and the file without it
    load to the same result. *)
Theorem LoadConfig_noise (open : string -> option ConfigFile)
        (filename text : string) (before after : list string) (err : bool) :
  open filename
  = Some {| scanned := before ++ text :: after; scanError := err |} ->
  noiseLine text = true ->
  LoadConfig open filename
  = LoadConfig (fun _ => Some {| scanned := before ++ after;
                                 scanError := err |}) filename.
Proof.
  intros Hopen Hnoise. unfold LoadConfig. rewrite Hopen. simpl.
  rewrite !foldl_app. simpl. by rewrite configLine_noise.
Qed.

Lemma LoadConfig_noise_witness :
  let before := ["REMOTE_SERVER: example.com"; "SSH_USERNAME: deploy"] in
  let after := ["SSH_PASSWORD: secret"; "REMOTE_FOLDER: /srv/app";
                "DOCKER_IMAGE_NAME: web"] in
  let text := "remote_server: other.example.com" in
  let open := fun _ : string =>
    Some {| scanned := before ++ text :: after; scanError := false |} in
  let loaded :=
    Loaded {| RemoteServer := "example.com"; SSHUsername := "deploy";
              SSHPassword := "secret"; RemoteFolder := "/srv/app";
              LocalFolder := "."; DockerImageName := "web";
              DockerBuildArgs := ""; DockerRunArgs := "";
              IgnorePatterns := defaultIgnorePatterns |} in
  noiseLine text = true /\
  LoadConfig open "pooshit_config" = loaded /\
  LoadConfig (fun _ => Some {| scanned := before ++ after;
                               scanError := false |}) "pooshit_config"
  = loaded.
Proof.
  intros before after text open loaded.
  assert (Hnoise : noiseLine text = true) by (vm_compute; reflexivity).
  assert (Hwithout :
            LoadConfig (fun _ => Some {| scanned := before ++ after;
                                         scanError := false |})
                       "pooshit_config" = loaded)
    by (vm_compute; reflexivity).
  split; [exact Hnoise|]. split; [|exact Hwithout].
  rewrite <- Hwithout.
  exact (LoadConfig_noise open "pooshit_config" text before after false
                          eq_refl Hnoise).
Defined.

(** ** The command line *)

Lemma last_cons {A} (a d : A) (l : list A) :
  List.last (a :: l) d = List.last l a.
Proof.
  revert a d. induction l as [|b l IH]; intros a d; [done|].
  change (List.last (b :: l) d = List.last (b :: l) a). by rewrite !IH.
Qed.

Lemma parseArgs_from (args : list string) (configFile : string)
      (pullMode : bool) :
  parseArgs args configFile pullMode
  = if existsb asksHelp args then None
    else Some (List.last (List.filter namesConfig args) configFile,
               pullMode || existsb (String.eqb "pull") args).
Proof.
  revert configFile pullMode.
  induction args as [|arg args IH]; intros configFile pullMode;
    cbn [parseArgs existsb List.filter].
  - by rewrite orb_false_r.
  - unfold asksHelp at 1.
    destruct (String.eqb arg "-h" || String.eqb arg "--help") eqn:Hhelp;
      [done|]. cbn [orb].
    unfold namesConfig at 1. rewrite (String.eqb_sym "pull" arg).
    destruct (String.eqb arg "pull") eqn:Hpull; cbn [negb andb orb].
    + rewrite IH. destruct (existsb asksHelp args); [done|].
      by rewrite orb_true_r.
    + destruct (strings.HasPrefix arg "-"); cbn [negb]; rewrite IH;
        destruct (existsb asksHelp args); try done.
      by rewrite last_cons.
Qed.

(** X4: what the loop over the arguments decides.  The help is shown
    when [-h] or [--help] occurs anywhere; else the mode is pull exactly
    when [pull] occurs, and the configuration file is the last argument
    that is neither [pull] nor starts with a dash ([pooshit_config] when
    there is none); other arguments that start with a dash are passed
    over.  So the mode and the file may come in either order. *)
Theorem parseArgs_spec (args : list string) :
  parseArgs args "pooshit_config" false
  = if existsb asksHelp args then None
    else Some (List.last (List.filter namesConfig args) "pooshit_config",
               existsb (String.eqb "pull") args).
Proof. apply parseArgs_from. Qed.

(** ** [Connect] *)

Lemma Contains_append_colon (s rest : string) :
  strings.Contains (s +:+ String ":"%char rest) ":" = true.
Proof.
  induction s as [|c s IH]; [done|].
  change (strings.Contains (String c (s +:+ String ":"%char rest)) ":" = true).
  cbn [strings.Contains]. rewrite IH. apply orb_true_r.
Qed.

(** X5: the address [Connect] dials always has a colon: a server
    written with a colon is dialled as it is, any other with [:22]
    after it. *)
Theorem dialAddress_has_port (config : Config) :
  strings.Contains (dialAddress config) ":" = true /\
  (dialAddress config = RemoteServer config
   \/ (strings.Contains (RemoteServer config) ":" = false /\
       dialAddress config = RemoteServer config +:+ ":22")).
Proof.
  unfold dialAddress.
  destruct (strings.Contains (RemoteServer config) ":") eqn:E; simpl.
  - split; [done|by left].
  - split; [apply Contains_append_colon|by right].
Qed.

(** ** [main] *)

Lemma expandRemote_home_only (config : Config) (host : Host) :
  Forall (fun ev => isHomeQuery ev = true) (expandRemote config host []).2.
Proof.
  unfold expandRemote, getRemoteHomeDir, session, mbind, mret,
    Remote_bind, Remote_ret.
  destruct (strings.HasPrefix _ _); simpl; [|done].
  destruct (failedOf _); simpl; by repeat constructor.
Qed.

Lemma syncCommands_home_only (config : Config) (env : Env) (localTree : tree) :
  Forall (fun ev => isHomeQuery ev = true) (syncCommands config env localTree).
Proof.
  unfold syncCommands. destruct (statOf localTree) as [localInfo|]; [|done].
  destruct (IsDir localInfo); [apply expandRemote_home_only|done].
Qed.

(** X6: [main] writes no file and issues no remote command unless the
    arguments do not ask for the help, the configuration loads, the local
    folder can be listed (in pull mode too), the connection is made and,
    in pull mode, the user has confirmed. *)
Theorem main_touches_nothing_unless (m : Machine) :
  remoteAfter (main m) <> pushDest m
  \/ localAfter (main m) <> pullDest m
  \/ commands (main m) <> [] ->
  exists configFile pullMode config files,
    parseArgs (osArgs m) "pooshit_config" false = Some (configFile, pullMode) /\
    LoadConfig (configFiles m) configFile = Loaded config /\
    readDir m (LocalFolder config) = Some files /\
    dial m (dialAddress config) = Connected /\
    (pullMode = true -> confirmAction (stdin m) = true).
Proof.
  unfold main, Connect.
  destruct (parseArgs _ _ _) as [[configFile pullMode]|] eqn:Hargs;
    [|by intros [?|[?|?]]].
  destruct (LoadConfig _ _) as [config|e] eqn:Hload; [|by intros [?|[?|?]]].
  destruct (readDir m _) as [files|] eqn:Hdir; [|by intros [?|[?|?]]].
  destruct (dial m _) eqn:Hdial; try by intros [?|[?|?]].
  intros Htouched. exists configFile, pullMode, config, files.
  do 4 (split; [done|]). intros ->.
  destruct (confirmAction (stdin m)); [done|]. simpl in Htouched.
  by destruct Htouched as [?|[?|?]].
Qed.

Lemma main_touches_nothing_unless_witness :
  let m := sampleMachine ["pull"] "yes" in
  localAfter (main m) <> pullDest m /\
  parseArgs (osArgs m) "pooshit_config" false = Some ("pooshit_config", true) /\
  confirmAction (stdin m) = true.
Proof.
  assert (H : localAfter (main (sampleMachine ["pull"] "yes")) <> ∅).
  { intros H. apply (f_equal (fun fs => fs !! "a.txt")) in H.
    vm_compute in H. discriminate H. }
  split; [exact H|].
  destruct (main_touches_nothing_unless (sampleMachine ["pull"] "yes")
              (or_intror (or_introl H)))
    as (configFile & pullMode & config & files & Hargs & _ & _ & _ & Hyes).
  split; [reflexivity|].
  apply Hyes. vm_compute in Hargs. by injection Hargs as _ <-.
Defined.



(** X8: [main] issues a Docker command only after [SyncFiles] has
    returned without an error: a remote command other than the query of
    the home directory means that the push of the files succeeded, and
    the remote files are those it left. *)
Theorem main_deploys_only_after_sync (m : Machine) (ev : event) :
  ev ∈ commands (main m) ->
  isHomeQuery ev = false ->
  exists configFile config report remote,
    parseArgs (osArgs m) "pooshit_config" false = Some (configFile, false) /\
    LoadConfig (configFiles m) configFile = Loaded config /\
    SyncFiles config (endpoints m) (pushSource m) (pushDest m)
    = (Ok report, remote) /\
    remoteAfter (main m) = remote /\
    (exit (main m) = ExitDeployed report
     \/ exists e, exit (main m) = ExitDockerFailed report e).
Proof.
  unfold main.
  destruct (parseArgs _ _ _) as [[configFile pullMode]|] eqn:Hargs;
    [|by intros ?%elem_of_nil].
  destruct (LoadConfig _ _) as [config|e] eqn:Hload;
    [|by intros ?%elem_of_nil].
  destruct (readDir m _) as [files|]; [|by intros ?%elem_of_nil].
  destruct (Connect _ _); [by intros ?%elem_of_nil|].
  destruct pullMode.
  - destruct (negb _); [by intros ?%elem_of_nil|].
    destruct (PullFiles _ _ _ _) as [r loc]. simpl. intros Hin Hev.
    pose proof (expandRemote_home_only config (host (endpoints m))) as Hall.
    rewrite Forall_forall in Hall. by rewrite (Hall _ Hin) in Hev.
  - destruct (SyncFiles _ _ _ _) as [[report|e] remote] eqn:Hsync.
    + destruct (ExecuteDockerCommands _ _ _) as [[e|] trace]; simpl;
        intros _ _; exists configFile, config, report, remote;
        repeat split; eauto.
    + simpl. intros Hin Hev.
      pose proof (syncCommands_home_only config (endpoints m) (pushSource m))
        as Hall.
      rewrite Forall_forall in Hall. by rewrite (Hall _ Hin) in Hev.
Qed.

Lemma main_deploys_only_after_sync_witness :
  let m := sampleMachine [] "" in
  let ev := Issued "sudo docker rmi -f web 2>/dev/null || true" in
  ev ∈ commands (main m) /\ isHomeQuery ev = false /\
  exists report, exit (main m) = ExitDeployed report
                 \/ exists e, exit (main m) = ExitDockerFailed report e.
Proof.
  assert (H : Issued "sudo docker rmi -f web 2>/dev/null || true"
              ∈ commands (main (sampleMachine [] ""))).
  { vm_compute. find_event. }
  split; [exact H|]. split; [reflexivity|].
  destruct (main_deploys_only_after_sync (sampleMachine [] "") _ H eq_refl)
    as (_ & _ & report & _ & _ & _ & _ & _ & Hexit).
  by exists report.
Defined.

(** ** A name with or without its trailing slash *)

Section TrailingSlash.
Import strings.

Lemma Contains_slash_cons (c : ascii) (s : string) :
  Contains (String c s) "/" = Ascii.eqb c "/" || Contains s "/".
Proof. simpl. by rewrite andb_true_r. Qed.

Lemma HasSuffix_Contains (s : string) :
  HasSuffix s "/" = true -> Contains s "/" = true.
Proof.
  induction s as [|c s IH]; [done|].
  cbn [HasSuffix]. rewrite Contains_slash_cons.
  intros [H|H]%orb_true_iff.
  - apply String.eqb_eq in H. injection H as -> _. done.
  - by rewrite IH, orb_true_r.
Qed.

Lemma HasSuffix_append_slash (s : string) : HasSuffix (s +:+ "/") "/" = true.
Proof.
  induction s as [|c s IH]; [done|].
  change (HasSuffix (String c (s +:+ "/")) "/" = true).
  cbn [HasSuffix]. by rewrite IH, orb_true_r.
Qed.

Lemma TrimSuffix_append_slash (s : string) : TrimSuffix (s +:+ "/") "/" = s.
Proof.
  induction s as [|c s IH]; [done|].
  change (TrimSuffix (String c (s +:+ "/")) "/" = String c s).
  cbn [TrimSuffix]. rewrite HasSuffix_append_slash, IH.
  destruct (String.eqb_spec (String c (s +:+ "/")) "/") as [E|]; [|done].
  injection E as _ E. by destruct s.
Qed.

(** A name without a slash, other than the empty name and the dot, is
    cleaned to itself, and to itself as a directory pattern when a slash
    is put after it. *)
Lemma cleanPattern_name (p : string) :
  p <> "" -> p <> "." -> Contains p "/" = false ->
  cleanPattern p = (false, p) /\ cleanPattern (p +:+ "/") = (true, p).
Proof.
  intros Hne Hdot Hslash.
  destruct p as [|c p]; [done|]. clear Hne.
  rewrite Contains_slash_cons in Hslash.
  apply orb_false_iff in Hslash as [Hc Hslash].
  assert (Hdotslash : HasPrefix (String c p) "./" = false).
  { cbn [HasPrefix]. destruct p as [|d p]; [by rewrite andb_false_r|].
    rewrite Contains_slash_cons in Hslash.
    apply orb_false_iff in Hslash as [-> _]. by rewrite andb_false_r. }
  assert (Hdotslash' : HasPrefix (String c p +:+ "/") "./" = false).
  { change (HasPrefix (String c (p +:+ "/")) "./" = false).
    cbn [HasPrefix]. destruct p as [|d p].
    - destruct (Ascii.eqb_spec c "."%char) as [->|]; [done|done].
    - change (Ascii.eqb c "." && (Ascii.eqb d "/" && true) = false).
      rewrite Contains_slash_cons in Hslash.
      apply orb_false_iff in Hslash as [-> _]. by rewrite andb_false_r. }
  assert (Hsuffix : HasSuffix (String c p) "/" = false).
  { destruct (HasSuffix (String c p) "/") eqn:E; [|done].
    apply HasSuffix_Contains in E. rewrite Contains_slash_cons in E.
    by rewrite Hc, Hslash in E. }
  assert (Hlead : forall s, HasPrefix (String c s) "/" = false).
  { intros s. cbn [HasPrefix]. by rewrite Hc. }
  unfold cleanPattern, TrimPrefix. split.
  - by rewrite Hlead, Hdotslash, Hsuffix.
  - change (String c p +:+ "/") with (String c (p +:+ "/")).
    rewrite Hlead.
    change (String c (p +:+ "/")) with (String c p +:+ "/").
    by rewrite Hdotslash', HasSuffix_append_slash, TrimSuffix_append_slash.
Qed.

End TrailingSlash.

(** X9: a name without a star and without a slash (other than the empty
    name and the dot) is the same rule with or without a slash after it,
    as the README says: the two rule sets ignore the same entries. *)
Theorem trailing_slash_is_optional (config config' : Config)
        (before after : list string) (p relPath : string) (info : FileInfo) :
  p <> "" -> p <> "." ->
  strings.Contains p "/" = false -> strings.Contains p "*" = false ->
  IgnorePatterns config = before ++ p :: after ->
  IgnorePatterns config' = before ++ (p +:+ "/") :: after ->
  shouldIgnore config' relPath info = shouldIgnore config relPath info.
Proof.
  intros Hne Hdot Hslash Hstar Hc Hc'.
  destruct (cleanPattern_name p Hne Hdot Hslash) as [Hp Hp'].
  unfold shouldIgnore. rewrite Hc, Hc', !ignoreLoop_existsb, !existsb_app.
  f_equal. simpl. f_equal.
  unfold patternIgnores. rewrite Hp, Hp', Hstar. by rewrite !orb_true_r.
Qed.

Lemma trailing_slash_is_optional_witness :
  "dist" <> "" /\ "dist" <> "." /\
  strings.Contains "dist" "/" = false /\ strings.Contains "dist" "*" = false /\
  shouldIgnore (sampleConfig [".git"; "dist/"; "*.log"]) "web/dist/app.js"
               (fileInfo "app.js" 1 1)
  = shouldIgnore (sampleConfig [".git"; "dist"; "*.log"]) "web/dist/app.js"
                 (fileInfo "app.js" 1 1).
Proof.
  do 4 (split; [done|]).
  by apply (trailing_slash_is_optional
              (sampleConfig [".git"; "dist"; "*.log"])
              (sampleConfig [".git"; "dist/"; "*.log"])
              [".git"] ["*.log"] "dist").
Defined.

(** ** What the two scans select *)





(** ** What a run leaves of the destination *)

Lemma sameKinds_refl (fs : fsmap) : sameKinds fs fs.
Proof. intros path info H. by exists info. Qed.

Lemma sameKinds_trans (fs fs' fs'' : fsmap) :
  sameKinds fs fs' -> sameKinds fs' fs'' -> sameKinds fs fs''.
Proof.
  intros H1 H2 path info H.
  destruct (H1 path info H) as (info' & H' & Hkind').
  destruct (H2 path info' H') as (info'' & H'' & Hkind'').
  exists info''. split; [done|congruence].
Qed.

Lemma onlyNewDirs_sameKinds (fs fs' : fsmap) :
  onlyNewDirs fs fs' -> sameKinds fs fs'.
Proof.
  intros Hdirs path info H. exists info.
  by rewrite (onlyNewDirs_lookup fs fs' path info Hdirs H).
Qed.

Lemma writeFile_sameKinds (env : Env) (dst : string) (written : Z)
      (fs : fsmap) :
  sameKinds fs (writeFile env dst written fs).1.
Proof.
  unfold writeFile. intros path info H.
  destruct (decide (path = filepath.Clean dst)) as [->|Hne].
  - rewrite H. destruct info as [name [] size modTime]; simpl.
    + by eexists.
    + rewrite lookup_insert_eq. by eexists.
  - destruct (fs !! filepath.Clean dst) as [[? [] ? ?]|]; simpl;
      rewrite ?lookup_insert_ne by done; by eexists.
Qed.

Lemma createAndCopy_sameKinds (env : Env) (src dst : string) (fs : fsmap) :
  sameKinds fs (createAndCopy env src dst fs).1.
Proof.
  unfold createAndCopy.
  destruct (copy env src); simpl;
    first [apply sameKinds_refl | apply writeFile_sameKinds].
Qed.

Lemma downloadFile_sameKinds (env : Env) (remotePath localPath : string)
      (loc : fsmap) :
  sameKinds loc (downloadFile env remotePath localPath loc).1.
Proof.
  unfold downloadFile.
  pose proof (MkdirAll_onlyNewDirs env (filepath.Dir localPath) loc) as Hdir.
  destruct (MkdirAll env _ loc) as [loc1 []]; simpl in *.
  - by apply onlyNewDirs_sameKinds.
  - eapply sameKinds_trans; [by apply onlyNewDirs_sameKinds|].
    apply createAndCopy_sameKinds.
Qed.

Lemma pushLoop_sameKinds (env : Env) (filesToSync : list SyncItem)
      (skippedCount syncedCount : nat) (remote : fsmap) :
  sameKinds remote
              (pushLoop env filesToSync skippedCount syncedCount remote).2.
Proof.
  revert skippedCount syncedCount remote.
  induction filesToSync as [|file rest IH]; intros sk sy remote;
    [apply sameKinds_refl|].
  simpl. destruct (needsUpdate _ _); [|apply IH].
  pose proof (createAndCopy_sameKinds env (localPath file) (remotePath file)
                remote) as Hup.
  unfold uploadFile.
  destruct (createAndCopy _ _ _ _) as [remote1 []]; simpl in *; [done|].
  eapply sameKinds_trans; [done|apply IH].
Qed.

Lemma pullLoop_sameKinds (env : Env) (filesToPull : list SyncItem)
      (downloadedCount skippedCount : nat) (loc : fsmap) :
  sameKinds loc
              (pullLoop env filesToPull downloadedCount skippedCount loc).2.
Proof.
  revert downloadedCount skippedCount loc.
  induction filesToPull as [|file rest IH]; intros dl sk loc;
    [apply sameKinds_refl|].
  simpl. destruct (needsUpdate _ _); [|apply IH].
  pose proof (downloadFile_sameKinds env (remotePath file) (localPath file)
                loc) as Hdown.
  destruct (downloadFile _ _ _ _) as [loc1 []]; simpl in *; [done|].
  eapply sameKinds_trans; [done|apply IH].
Qed.

(** A download changes no entry that exists, but the one at its
    destination. *)
Lemma downloadFile_other (env : Env) (remotePath localPath : string)
      (loc : fsmap) (key : string) (info : FileInfo) :
  key <> destKey localPath -> loc !! key = Some info ->
  (downloadFile env remotePath localPath loc).1 !! key = Some info.
Proof.
  intros Hne Hkey. unfold downloadFile.
  pose proof (MkdirAll_onlyNewDirs env (filepath.Dir localPath) loc) as Hdir.
  apply (onlyNewDirs_lookup _ _ key info) in Hdir; [|done].
  destruct (MkdirAll env _ loc) as [loc1 []]; simpl in *; [done|].
  unfold createAndCopy.
  destruct (copy env remotePath); simpl; by rewrite ?writeFile_other.
Qed.

Lemma pullLoop_other (env : Env) (filesToPull : list SyncItem)
      (downloadedCount skippedCount : nat) (loc : fsmap) (key : string)
      (info : FileInfo) :
  key ∉ localKeys filesToPull -> loc !! key = Some info ->
  (pullLoop env filesToPull downloadedCount skippedCount loc).2 !! key
  = Some info.
Proof.
  revert downloadedCount skippedCount loc.
  induction filesToPull as [|file rest IH]; intros dl sk loc Hkey Hloc; [done|].
  simpl in *. apply not_elem_of_cons in Hkey as [Hne Hkey].
  destruct (needsUpdate _ _); [|by apply IH].
  pose proof (downloadFile_other env (remotePath file) (localPath file) loc
                key info Hne Hloc) as Hdown.
  destruct (downloadFile _ _ _ _) as [loc1 []]; simpl in *; [done|].
  by apply IH.
Qed.

Lemma pullVisit_onlyNewDirs (config : Config) (env : Env) (remotePath : string)
      (item : walkItem) (st : Scan) :
  onlyNewDirs (dest st) (dest (pullVisit config env remotePath item st)).
Proof.
  unfold pullVisit.
  repeat case_match; simpl; try reflexivity. apply MkdirAll_onlyNewDirs.
Qed.

Lemma pullScan_onlyNewDirs (config : Config) (env : Env) (remotePath : string)
      (items : list walkItem) (st : Scan) :
  onlyNewDirs (dest st) (dest (pullScan config env remotePath items st)).
Proof.
  unfold pullScan. revert st.
  induction items as [|item items IH]; intros st; [reflexivity|].
  simpl. etransitivity; [apply pullVisit_onlyNewDirs|apply IH].
Qed.

(** The files a pull selects and the ignored count do not depend on the
    endpoints. *)
Lemma pullScan_same_scan (config : Config) (env env' : Env)
      (remotePath : string) (items : list walkItem) (st st' : Scan) :
  files st = files st' -> ignoredCount st = ignoredCount st' ->
  let r := pullScan config env remotePath items st in
  let r' := pullScan config env' remotePath items st' in
  files r = files r' /\ ignoredCount r = ignoredCount r'.
Proof.
  unfold pullScan. revert st st'.
  induction items as [|item items IH]; intros st st' Hf Hi; [done|].
  simpl. apply IH; unfold pullVisit;
    repeat case_match; simpl; rewrite ?Hf, ?Hi; done.
Qed.

(** Where [SyncFiles] leaves the remote file system. *)
Lemma SyncFiles_remote (config : Config) (env : Env) (localTree : tree)
      (remote : fsmap) :
  let remote' := (SyncFiles config env localTree remote).2 in
  remote' = remote \/
  exists remotePath st err,
    (expandRemote config (host env) []).1 = Some remotePath /\
    scanLocal config env remotePath localTree
              (MkdirAll env remotePath remote).1 = (st, err) /\
    (remote' = dest st \/ remote' = (pushLoop env (files st) 0 0 (dest st)).2).
Proof.
  unfold SyncFiles.
  destruct (statOf localTree) as [localInfo|]; [|by left].
  destruct (IsDir localInfo); [|by left]. cbn [negb].
  destruct (expandRemote config (host env) []).1 as [remotePath|] eqn:Hexp;
    [|by left].
  cbn [fst]. right. exists remotePath.
  destruct (scanLocal _ _ _ _ _) as [st err]. exists st, err.
  split; [done|]. split; [done|].
  destruct err; [|by left..].
  destruct (files st) as [|file rest]; [by left|]. right.
  by destruct (pushLoop env (file :: rest) 0 0 (dest st)) as [[[sk sy]|e] r].
Qed.

(** X12: a push removes nothing from the remote file system and
    changes the kind of nothing: what was there is there, a directory
    still a directory and a file still a file; and a file that is not
    the destination of a file on the list of the push is exactly as it
    was, whether the push ends with an error or not. *)
Theorem push_keeps_the_rest (config : Config) (env : Env) (localTree : tree)
        (remote : fsmap) (path : string) (info : FileInfo) :
  remote !! path = Some info ->
  let remote' := (SyncFiles config env localTree remote).2 in
  (exists info', remote' !! path = Some info' /\ IsDir info' = IsDir info) /\
  (IsDir info = false ->
   path ∉ remoteKeys (planOf config env localTree) ->
   remote' !! path = Some info).
Proof.
  intros Hpath remote'.
  destruct (SyncFiles_remote config env localTree remote)
    as [E|(remotePath & st & err & Hexp & Hscan & E)];
    fold remote' in E.
  { rewrite E, Hpath. split; [by eexists|done]. }
  assert (Hst : dest st !! path = Some info).
  { eapply onlyNewDirs_lookup; [|done].
    etransitivity; [apply MkdirAll_onlyNewDirs|].
    pose proof (scanLocal_onlyNewDirs config env remotePath localTree
                  (MkdirAll env remotePath remote).1) as H.
    by rewrite Hscan in H. }
  destruct E as [E|E]; rewrite E.
  { rewrite Hst. split; [by eexists|done]. }
  split; [by apply (pushLoop_sameKinds env (files st) 0 0 (dest st))|].
  intros _ Hother. rewrite pushLoop_other; [done|].
  unfold planOf, remoteKeys in Hother. rewrite Hexp in Hother.
  destruct (scanLocal_same_scan config env env remotePath localTree
              (MkdirAll env remotePath remote).1 (@empty fsmap gmap_empty))
    as (Hplan & _ & _).
  rewrite Hscan in Hplan. simpl in Hplan. by rewrite Hplan.
Qed.

Lemma push_keeps_the_rest_witness :
  let remote : fsmap := <["/srv/app/keep.txt" := fileInfo "keep.txt" 1 1]> ∅ in
  remote !! "/srv/app/keep.txt" = Some (fileInfo "keep.txt" 1 1) /\
  IsDir (fileInfo "keep.txt" 1 1) = false /\
  ("/srv/app/keep.txt"
     ∉ remoteKeys (planOf (sampleConfig []) (sampleEnv 10 100) sampleTree)) /\
  (SyncFiles (sampleConfig []) (sampleEnv 10 100) sampleTree remote).2
    !! "/srv/app/keep.txt" = Some (fileInfo "keep.txt" 1 1).
Proof.
  intros remote.
  assert (Hother : "/srv/app/keep.txt"
                     ∉ remoteKeys (planOf (sampleConfig []) (sampleEnv 10 100)
                                          sampleTree)).
  { vm_compute. intros H.
    repeat (apply elem_of_cons in H as [H|H]; [discriminate H|]).
    by apply elem_of_nil in H. }
  split; [reflexivity|]. split; [reflexivity|]. split; [exact Hother|].
  exact (proj2 (push_keeps_the_rest (sampleConfig []) (sampleEnv 10 100)
                  sampleTree remote "/srv/app/keep.txt"
                  (fileInfo "keep.txt" 1 1) eq_refl)
               eq_refl Hother).
Defined.

(** Where [PullFiles] leaves the local file system. *)
Lemma PullFiles_local (config : Config) (env : Env) (remoteTree : tree)
      (loc : fsmap) :
  let loc' := (PullFiles config env remoteTree loc).2 in
  loc' = loc \/
  exists remotePath,
    (expandRemote config (host env) []).1 = Some remotePath /\
    let loc1 := (MkdirAll env (LocalFolder config) loc).1 in
    let st :=
      pullScan config env (filepath.ToSlash remotePath)
               (walkerItems (filepath.ToSlash remotePath) remoteTree)
               {| files := []; ignoredCount := 0; dest := loc1 |} in
    loc' = loc1 \/ loc' = dest st
    \/ loc' = (pullLoop env (files st) 0 0 (dest st)).2.
Proof.
  unfold PullFiles.
  destruct (expandRemote config (host env) []).1 as [remotePath|] eqn:Hexp;
    [|by left].
  cbn [fst]. right. exists remotePath. split; [done|].
  destruct (MkdirAll env (LocalFolder config) loc) as [loc1 []]; cbn [fst];
    [by left|].
  cbn zeta.
  destruct (files (pullScan _ _ _ _ _)) as [|file rest]; [by right; left|].
  right; right.
  by destruct (pullLoop env (file :: rest) 0 0 _) as [[[dl sk]|e] r].
Qed.

(** X13: a pull removes nothing from the local file system and
    changes the kind of nothing: what was there is there, a directory
    still a directory and a file still a file; and a file that is not
    the destination of a file on the list of the pull is exactly as it
    was, whether the pull ends with an error or not. *)
Theorem pull_keeps_the_rest (config : Config) (env : Env) (remoteTree : tree)
        (loc : fsmap) (path : string) (info : FileInfo) :
  loc !! path = Some info ->
  let loc' := (PullFiles config env remoteTree loc).2 in
  (exists info', loc' !! path = Some info' /\ IsDir info' = IsDir info) /\
  (IsDir info = false ->
   path ∉ localKeys (pullPlanOf config env remoteTree) ->
   loc' !! path = Some info).
Proof.
  intros Hpath loc'.
  destruct (PullFiles_local config env remoteTree loc)
    as [E|(remotePath & Hexp & E)]; fold loc' in E.
  { rewrite E, Hpath. split; [by eexists|done]. }
  cbn zeta in E.
  set (loc1 := (MkdirAll env (LocalFolder config) loc).1) in E.
  set (st := pullScan _ _ _ _ _) in E.
  assert (H1 : loc1 !! path = Some info).
  { eapply onlyNewDirs_lookup; [apply MkdirAll_onlyNewDirs|done]. }
  assert (Hst : dest st !! path = Some info).
  { eapply onlyNewDirs_lookup; [|exact H1].
    apply (pullScan_onlyNewDirs config env (filepath.ToSlash remotePath) _
             {| files := []; ignoredCount := 0; dest := loc1 |}). }
  destruct E as [E|[E|E]]; rewrite E.
  { rewrite H1. split; [by eexists|done]. }
  { rewrite Hst. split; [by eexists|done]. }
  split; [by apply (pullLoop_sameKinds env (files st) 0 0 (dest st))|].
  intros _ Hother. apply pullLoop_other; [|done].
  unfold pullPlanOf in Hother. rewrite Hexp in Hother. cbn zeta in Hother.
  destruct (pullScan_same_scan config env env (filepath.ToSlash remotePath)
              (walkerItems (filepath.ToSlash remotePath) remoteTree)
              {| files := []; ignoredCount := 0; dest := loc1 |}
              {| files := []; ignoredCount := 0;
                 dest := @empty fsmap gmap_empty |} eq_refl eq_refl)
    as [Hplan _].
  subst st. by rewrite Hplan.
Qed.

Lemma pull_keeps_the_rest_witness :
  let loc : fsmap := <["proj/notes.txt" := fileInfo "notes.txt" 1 1]> ∅ in
  loc !! "proj/notes.txt" = Some (fileInfo "notes.txt" 1 1) /\
  IsDir (fileInfo "notes.txt" 1 1) = false /\
  ("proj/notes.txt"
     ∉ localKeys (pullPlanOf (sampleConfig []) (sampleEnv 10 100) sampleTree)) /\
  (PullFiles (sampleConfig []) (sampleEnv 10 100) sampleTree loc).2
    !! "proj/notes.txt" = Some (fileInfo "notes.txt" 1 1).
Proof.
  intros loc.
  assert (Hother : "proj/notes.txt"
                     ∉ localKeys (pullPlanOf (sampleConfig [])
                                             (sampleEnv 10 100) sampleTree)).
  { vm_compute. intros H.
    repeat (apply elem_of_cons in H as [H|H]; [discriminate H|]).
    by apply elem_of_nil in H. }
  split; [reflexivity|]. split; [reflexivity|]. split; [exact Hother|].
  exact (proj2 (pull_keeps_the_rest (sampleConfig []) (sampleEnv 10 100)
                  sampleTree loc "proj/notes.txt"
                  (fileInfo "notes.txt" 1 1) eq_refl)
               eq_refl Hother).
Defined.

(** ** What the error of a transfer means *)

Lemma createAndCopy_error (env : Env) (src dst : string) (fs fs' : fsmap) :
  createAndCopy env src dst fs = (fs', true) ->
  (forall n, copy env src <> Copied n)
  \/ exists info, fs' !! destKey dst = Some info /\ IsDir info = true.
Proof.
  unfold createAndCopy, writeFile, destKey.
  destruct (copy env src) as [| | |written|written]; try by left.
  destruct (fs !! filepath.Clean dst) as [[name [] size modTime]|] eqn:E;
    [|done..].
  intros [= <-]. right. by eexists.
Qed.

Lemma pushLoop_error (env : Env) (filesToSync : list SyncItem)
      (skippedCount syncedCount : nat) (remote remote' : fsmap)
      (e : SyncError) :
  pushLoop env filesToSync skippedCount syncedCount remote = (Err e, remote') ->
  exists f,
    f ∈ filesToSync /\ e = ErrUpload (localPath f) /\
    ((forall n, copy env (localPath f) <> Copied n)
     \/ exists info,
         remote' !! destKey (remotePath f) = Some info /\ IsDir info = true).
Proof.
  revert skippedCount syncedCount remote.
  induction filesToSync as [|file rest IH]; intros sk sy remote Hloop; [done|].
  simpl in Hloop.
  assert (Hrest : forall sk1 sy1 remote1,
             pushLoop env rest sk1 sy1 remote1 = (Err e, remote') ->
             exists f,
               f ∈ file :: rest /\ e = ErrUpload (localPath f) /\
               ((forall n, copy env (localPath f) <> Copied n)
                \/ exists info,
                    remote' !! destKey (remotePath f) = Some info
                    /\ IsDir info = true)).
  { intros sk1 sy1 remote1 H. apply IH in H as (f & Hf & H).
    exists f. split; [by apply elem_of_cons; right|done]. }
  destruct (needsUpdate _ _); [|by eapply Hrest].
  unfold uploadFile in Hloop.
  destruct (createAndCopy _ _ _ _) as [remote1 []] eqn:Hup; [|by eapply Hrest].
  injection Hloop as <- <-.
  exists file. split; [by apply elem_of_cons; left|]. split; [done|].
  by eapply createAndCopy_error.
Qed.

(** X14: when a push ends with the error of an upload, the file is on
    the list of the push, and either its copy did not go to its end
    (the local file could not be opened or stat'ed, the remote one not
    created, or the copy broke off) or a directory is at its
    destination. *)
Theorem push_upload_error (config : Config) (env : Env) (localTree : tree)
        (remote : fsmap) (path : string) :
  (SyncFiles config env localTree remote).1 = Err (ErrUpload path) ->
  exists f,
    f ∈ planOf config env localTree /\ localPath f = path /\
    ((forall n, copy env path <> Copied n)
     \/ exists info,
         (SyncFiles config env localTree remote).2 !! destKey (remotePath f)
         = Some info /\ IsDir info = true).
Proof.
  unfold SyncFiles, planOf.
  destruct (statOf localTree) as [localInfo|]; [|done].
  destruct (IsDir localInfo); [|done]. cbn [negb].
  destruct (expandRemote config (host env) []).1 as [remotePath|]; [|done].
  cbn [fst].
  destruct (scanLocal_same_scan config env env remotePath localTree
              (MkdirAll env remotePath remote).1 (@empty fsmap gmap_empty))
    as (Hplan & _ & _).
  destruct (scanLocal config env remotePath localTree (MkdirAll _ _ _).1)
    as [st err]. simpl in Hplan. rewrite <- Hplan.
  destruct err; [|done..].
  destruct (files st) as [|file rest]; [done|].
  destruct (pushLoop env (file :: rest) 0 0 (dest st))
    as [[[sk sy]|e] remote'] eqn:Hloop; [done|].
  cbn [fst snd]. intros [= ->].
  apply pushLoop_error in Hloop as (f & Hf & [= Hpath] & H).
  exists f. by rewrite Hpath.
Qed.

Lemma push_upload_error_witness :
  let remote : fsmap := <["/srv/app/a.txt" := dirInfo "a.txt"]> ∅ in
  let run := SyncFiles (sampleConfig []) (sampleEnv 10 100) sampleTree remote in
  run.1 = Err (ErrUpload "proj/a.txt") /\
  exists f,
    f ∈ planOf (sampleConfig []) (sampleEnv 10 100) sampleTree /\
    localPath f = "proj/a.txt" /\
    ((forall n, copy (sampleEnv 10 100) "proj/a.txt" <> Copied n)
     \/ exists info,
         run.2 !! destKey (remotePath f) = Some info /\ IsDir info = true).
Proof.
  intros remote run.
  assert (H : run.1 = Err (ErrUpload "proj/a.txt")) by (vm_compute; reflexivity).
  split; [exact H|].
  exact (push_upload_error (sampleConfig []) (sampleEnv 10 100) sampleTree
                           remote "proj/a.txt" H).
Defined.

Lemma downloadFile_error (env : Env) (remotePath localPath : string)
      (loc loc' : fsmap) :
  downloadFile env remotePath localPath loc = (loc', true) ->
  (exists info, loc' !! destKey (filepath.Dir localPath) = Some info
                /\ IsDir info = false)
  \/ mkdirFails env (destKey (filepath.Dir localPath)) = true
  \/ (forall n, copy env remotePath <> Copied n)
  \/ exists info, loc' !! destKey localPath = Some info /\ IsDir info = true.
Proof.
  unfold downloadFile, MkdirAll, destKey.
  destruct (loc !! filepath.Clean (filepath.Dir localPath)) as [info|] eqn:E.
  - destruct (IsDir info) eqn:Hdir; cbn [negb].
    + intros H. right; right. by eapply createAndCopy_error.
    + intros [= <-]. left. by exists info.
  - destruct (mkdirFails env _) eqn:Hfails.
    + intros _. by right; left.
    + intros H. right; right. by eapply createAndCopy_error.
Qed.

Lemma pullLoop_error (env : Env) (filesToPull : list SyncItem)
      (downloadedCount skippedCount : nat) (loc loc' : fsmap)
      (e : SyncError) :
  pullLoop env filesToPull downloadedCount skippedCount loc = (Err e, loc') ->
  exists f,
    f ∈ filesToPull /\ e = ErrDownload (remotePath f) /\
    ((exists info, loc' !! destKey (filepath.Dir (localPath f)) = Some info
                   /\ IsDir info = false)
     \/ mkdirFails env (destKey (filepath.Dir (localPath f))) = true
     \/ (forall n, copy env (remotePath f) <> Copied n)
     \/ exists info,
         loc' !! destKey (localPath f) = Some info /\ IsDir info = true).
Proof.
  revert downloadedCount skippedCount loc.
  induction filesToPull as [|file rest IH]; intros dl sk loc Hloop; [done|].
  simpl in Hloop.
  assert (Hrest : forall dl1 sk1 loc1,
             pullLoop env rest dl1 sk1 loc1 = (Err e, loc') ->
             exists f,
               f ∈ file :: rest /\ e = ErrDownload (remotePath f) /\
               ((exists info,
                    loc' !! destKey (filepath.Dir (localPath f)) = Some info
                    /\ IsDir info = false)
                \/ mkdirFails env (destKey (filepath.Dir (localPath f))) = true
                \/ (forall n, copy env (remotePath f) <> Copied n)
                \/ exists info,
                    loc' !! destKey (localPath f) = Some info
                    /\ IsDir info = true)).
  { intros dl1 sk1 loc1 H. apply IH in H as (f & Hf & H).
    exists f. split; [by apply elem_of_cons; right|done]. }
  destruct (needsUpdate _ _); [|by eapply Hrest].
  destruct (downloadFile _ _ _ _) as [loc1 []] eqn:Hdown; [|by eapply Hrest].
  injection Hloop as <- <-.
  exists file. split; [by apply elem_of_cons; left|]. split; [done|].
  by eapply downloadFile_error.
Qed.

(** X15: when a pull ends with the error of a download, the file is on
    the list of the pull, and either a file is where its local
    directory should be, or that directory could not be made, or the
    copy did not go to its end, or a directory is at its destination. *)
Theorem pull_download_error (config : Config) (env : Env) (remoteTree : tree)
        (loc : fsmap) (path : string) :
  (PullFiles config env remoteTree loc).1 = Err (ErrDownload path) ->
  exists f,
    f ∈ pullPlanOf config env remoteTree /\ remotePath f = path /\
    let loc' := (PullFiles config env remoteTree loc).2 in
    (exists info, loc' !! destKey (filepath.Dir (localPath f)) = Some info
                  /\ IsDir info = false)
    \/ mkdirFails env (destKey (filepath.Dir (localPath f))) = true
    \/ (forall n, copy env path <> Copied n)
    \/ exists info,
        loc' !! destKey (localPath f) = Some info /\ IsDir info = true.
Proof.
  unfold PullFiles, pullPlanOf.
  destruct (expandRemote config (host env) []).1 as [remotePath|]; [|done].
  cbn [fst].
  destruct (MkdirAll env (LocalFolder config) loc) as [loc1 []]; [done|].
  cbn zeta.
  destruct (pullScan_same_scan config env env (filepath.ToSlash remotePath)
              (walkerItems (filepath.ToSlash remotePath) remoteTree)
              {| files := []; ignoredCount := 0; dest := loc1 |}
              {| files := []; ignoredCount := 0;
                 dest := @empty fsmap gmap_empty |} eq_refl eq_refl)
    as [Hplan _].
  rewrite <- Hplan.
  destruct (pullScan config env _ _ {| dest := loc1 |}) as [plan n fs].
  cbn [files dest].
  destruct plan as [|file rest]; [done|].
  destruct (pullLoop env (file :: rest) 0 0 fs)
    as [[[dl sk]|e] loc'] eqn:Hloop; [done|].
  cbn [fst snd]. intros [= ->].
  apply pullLoop_error in Hloop as (f & Hf & [= Hpath] & H).
  exists f. by rewrite Hpath.
Qed.

Lemma pull_download_error_witness :
  let loc : fsmap :=
    <["proj/node_modules" := fileInfo "node_modules" 1 1]> ∅ in
  let config := sampleConfig [] in
  let env := sampleEnv 10 100 in
  let run := PullFiles config env sampleTree loc in
  run.1 = Err (ErrDownload "/srv/app/node_modules/x.js") /\
  exists f,
    f ∈ pullPlanOf config env sampleTree /\
    remotePath f = "/srv/app/node_modules/x.js" /\
    ((exists info, run.2 !! destKey (filepath.Dir (localPath f)) = Some info
                   /\ IsDir info = false)
     \/ mkdirFails env (destKey (filepath.Dir (localPath f))) = true
     \/ (forall n, copy env "/srv/app/node_modules/x.js" <> Copied n)
     \/ exists info,
         run.2 !! destKey (localPath f) = Some info /\ IsDir info = true).
Proof.
  intros loc config env run.
  assert (H : run.1 = Err (ErrDownload "/srv/app/node_modules/x.js"))
    by (vm_compute; reflexivity).
  split; [exact H|].
  exact (pull_download_error config env sampleTree loc
                             "/srv/app/node_modules/x.js" H).
Defined.

(** ** Pulling twice *)

Lemma downloadFile_ok (env : Env) (remotePath localPath : string)
      (loc loc' : fsmap) :
  downloadFile env remotePath localPath loc = (loc', false) ->
  exists written,
    copy env remotePath = Copied written /\
    Stat loc' localPath = Some (newFile env (destKey localPath) written).
Proof.
  unfold downloadFile.
  destruct (MkdirAll env _ loc) as [loc1 []]; [done|].
  apply (uploadFile_ok env remotePath localPath loc1 loc').
Qed.

Lemma needsUpdate_false_Some (stat : option FileInfo) (info : FileInfo) :
  needsUpdate stat info = false -> is_Some stat.
Proof. destruct stat; [by eexists|done]. Qed.

Lemma pullLoop_up_to_date (env : Env) (filesToPull : list SyncItem)
      (downloadedCount skippedCount : nat) (loc loc' : fsmap)
      (counts : nat * nat) :
  NoDup (localKeys filesToPull) ->
  (forall f n, f ∈ filesToPull ->
               copy env (remotePath f) = Copied n -> n = Size (info f)) ->
  (forall f, f ∈ filesToPull ->
             (ModTime (info f) - time.Second
              < clock env (destKey (localPath f)))%Z) ->
  pullLoop env filesToPull downloadedCount skippedCount loc
  = (Ok counts, loc') ->
  forall f, f ∈ filesToPull ->
            needsUpdate (Stat loc' (localPath f)) (info f) = false.
Proof.
  revert downloadedCount skippedCount loc.
  induction filesToPull as [|file rest IH];
    intros dl sk loc Hnodup Hsize Hclock Hloop f Hf;
    [by apply elem_of_nil in Hf|].
  apply NoDup_cons in Hnodup as [Hfresh Hnodup]. simpl in Hloop.
  assert (Hrest : forall loc1 dl1 sk1,
             pullLoop env rest dl1 sk1 loc1 = (Ok counts, loc') ->
             needsUpdate (Stat loc1 (localPath file)) (info file) = false ->
             needsUpdate (Stat loc' (localPath f)) (info f) = false).
  { intros loc1 dl1 sk1 Hloop1 Hfile.
    apply elem_of_cons in Hf as [->|Hf].
    - destruct (needsUpdate_false_Some _ _ Hfile) as [stat Hstat].
      pose proof (pullLoop_other env rest dl1 sk1 loc1 _ stat Hfresh Hstat)
        as Hkeep.
      rewrite Hloop1 in Hkeep. unfold Stat, destKey in *. simpl in Hkeep.
      by rewrite Hkeep, <- Hstat.
    - eapply IH; eauto.
      + intros f' n Hf'. apply Hsize. by apply elem_of_cons; right.
      + intros f' Hf'. apply Hclock. by apply elem_of_cons; right. }
  destruct (needsUpdate (Stat loc (localPath file)) (info file)) eqn:Hneeds.
  - destruct (downloadFile _ _ _ _) as [loc1 []] eqn:Hdown; [done|].
    apply downloadFile_ok in Hdown as (written & Hcopy & Hstat).
    eapply Hrest; [done|]. rewrite Hstat.
    apply needsUpdate_fresh.
    + eapply Hsize; [|done]. by apply elem_of_cons; left.
    + apply Hclock. by apply elem_of_cons; left.
  - by eapply Hrest.
Qed.

Lemma pullLoop_all_up_to_date (env : Env) (filesToPull : list SyncItem)
      (downloadedCount skippedCount : nat) (loc : fsmap) :
  (forall f, f ∈ filesToPull ->
             needsUpdate (Stat loc (localPath f)) (info f) = false) ->
  pullLoop env filesToPull downloadedCount skippedCount loc
  = (Ok (downloadedCount, skippedCount + length filesToPull), loc).
Proof.
  revert skippedCount.
  induction filesToPull as [|file rest IH]; intros sk Hall; simpl.
  - by rewrite Nat.add_0_r.
  - rewrite Hall by (by apply elem_of_cons; left).
    rewrite IH by (intros f Hf; apply Hall; by apply elem_of_cons; right).
    do 3 f_equal. lia.
Qed.

(** A directory that [MkdirAll] has made, or found, is found again. *)
Lemma MkdirAll_ok (env : Env) (path : string) (fs fs' : fsmap) :
  MkdirAll env path fs = (fs', false) ->
  exists info, fs' !! filepath.Clean path = Some info /\ IsDir info = true.
Proof.
  unfold MkdirAll.
  destruct (fs !! filepath.Clean path) as [info|] eqn:E.
  - destruct (IsDir info) eqn:Hdir; [|done]. intros [= <-]. by exists info.
  - destruct (mkdirFails env _); [done|]. intros [= <-].
    rewrite lookup_insert_eq. by eexists.
Qed.

Lemma MkdirAll_again (env : Env) (path : string) (fs : fsmap) (info : FileInfo) :
  fs !! filepath.Clean path = Some info -> IsDir info = true ->
  MkdirAll env path fs = (fs, false).
Proof. intros E Hdir. unfold MkdirAll. by rewrite E, Hdir. Qed.

(** What a pull without an error has done. *)
Lemma PullFiles_ok (config : Config) (env : Env) (remoteTree : tree)
      (loc loc' : fsmap) (report : SyncReport) :
  PullFiles config env remoteTree loc = (Ok report, loc') ->
  exists remotePath loc1,
    (expandRemote config (host env) []).1 = Some remotePath /\
    MkdirAll env (LocalFolder config) loc = (loc1, false) /\
    let st :=
      pullScan config env (filepath.ToSlash remotePath)
               (walkerItems (filepath.ToSlash remotePath) remoteTree)
               {| files := []; ignoredCount := 0; dest := loc1 |} in
    exists counts,
      pullLoop env (files st) 0 0 (dest st) = (Ok counts, loc').
Proof.
  unfold PullFiles.
  destruct (expandRemote config (host env) []).1 as [remotePath|]; [|done].
  cbn [fst].
  destruct (MkdirAll env (LocalFolder config) loc) as [loc1 []] eqn:Hmk;
    [done|].
  cbn zeta. intros H. exists remotePath, loc1. split; [done|]. split; [done|].
  destruct (pullScan config env _ _ _) as [plan n fs]. cbn [files dest] in *.
  destruct plan as [|file rest].
  - injection H as _ <-. by eexists.
  - destruct (pullLoop env (file :: rest) 0 0 fs)
      as [[[dl sk]|e] loc2]; [|done].
    injection H as _ <-. by eexists.
Qed.

(** X16: when a pull ends without an error, its files have distinct
    local destinations, every copy had the size the scan saw, the local
    clock stamped every file later than one second before the file's
    remote modification time, and the remote folder resolves to the same
    path again, then a second pull of the same tree into the resulting
    local file system ends without an error, downloads nothing and skips
    every file it checks. *)
Theorem second_pull_transfers_nothing (config : Config) (env1 env2 : Env)
        (remoteTree : tree) (loc0 loc1 : fsmap) (report1 : SyncReport) :
  PullFiles config env1 remoteTree loc0 = (Ok report1, loc1) ->
  (expandRemote config (host env2) []).1
  = (expandRemote config (host env1) []).1 ->
  NoDup (localKeys (pullPlanOf config env1 remoteTree)) ->
  (forall f n, f ∈ pullPlanOf config env1 remoteTree ->
               copy env1 (remotePath f) = Copied n -> n = Size (info f)) ->
  (forall f, f ∈ pullPlanOf config env1 remoteTree ->
             (ModTime (info f) - time.Second
              < clock env1 (destKey (localPath f)))%Z) ->
  exists report2 loc2,
    PullFiles config env2 remoteTree loc1 = (Ok report2, loc2) /\
    transferred report2 = 0 /\
    skipped report2 = checked report2.
Proof.
  intros Hrun1 Hhome Hnodup Hsize Hclock.
  apply PullFiles_ok in Hrun1 as (remotePath & locA & Hexp & Hmk & Hrun1).
  cbn zeta in Hrun1. destruct Hrun1 as [counts Hloop1].
  unfold pullPlanOf in *. rewrite Hexp in *. cbn zeta in *.
  set (root := filepath.ToSlash remotePath) in *.
  set (items := walkerItems root remoteTree) in *.
  (* the plan of the first run is the plan of any run *)
  destruct (pullScan_same_scan config env1 env1 root items
              {| files := []; ignoredCount := 0; dest := locA |}
              {| files := []; ignoredCount := 0;
                 dest := @empty fsmap gmap_empty |} eq_refl eq_refl)
    as [Hplan1 _].
  rewrite <- Hplan1 in *.
  set (st1 := pullScan config env1 root items
                       {| files := []; ignoredCount := 0; dest := locA |})
    in *.
  (* after the first run every file is up to date *)
  pose proof (pullLoop_up_to_date env1 (files st1) 0 0 (dest st1) loc1
                counts Hnodup Hsize Hclock Hloop1) as Hfresh.
  (* the local folder is still there *)
  apply MkdirAll_ok in Hmk as (folder0 & Hfolder & Hdir0).
  assert (Hkept : exists folder,
             loc1 !! filepath.Clean (LocalFolder config) = Some folder
             /\ IsDir folder = true).
  { pose proof (pullLoop_sameKinds env1 (files st1) 0 0 (dest st1)) as Hloop.
    rewrite Hloop1 in Hloop.
    destruct (Hloop (filepath.Clean (LocalFolder config)) folder0)
      as (folder & Hfound & Hkind).
    - eapply onlyNewDirs_lookup; [|done].
      apply (pullScan_onlyNewDirs config env1 root items
               {| files := []; ignoredCount := 0; dest := locA |}).
    - exists folder. split; [done|congruence]. }
  destruct Hkept as (folder & Hkept & Hdir).
  (* the second run *)
  unfold PullFiles. rewrite Hhome. cbn [fst]. fold root. fold items.
  rewrite (MkdirAll_again env2 _ loc1 folder Hkept Hdir). cbn zeta.
  destruct (pullScan_same_scan config env2 env1 root items
              {| files := []; ignoredCount := 0; dest := loc1 |}
              {| files := []; ignoredCount := 0; dest := locA |}
              eq_refl eq_refl) as [Hplan2 _].
  fold st1 in Hplan2.
  pose proof (pullScan_onlyNewDirs config env2 root items
                {| files := []; ignoredCount := 0; dest := loc1 |}) as Hdirs.
  destruct (pullScan config env2 root items _) as [plan2 n2 fs2].
  cbn [files dest] in *. subst plan2.
  destruct (files st1) as [|file rest] eqn:Hfiles; [by eexists _, _|].
  rewrite pullLoop_all_up_to_date.
  - by eexists _, _.
  - intros f Hf. eapply needsUpdate_preserved; [done|]. by apply Hfresh.
Qed.

Lemma second_pull_transfers_nothing_witness :
  let config := sampleConfig ["node_modules/"] in
  let env := sampleEnv 10 6000000000 in
  let run1 := PullFiles config env sampleTree ∅ in
  run1.1 = Ok {| checked := 1; transferred := 1; skipped := 0; ignored := 3 |} /\
  exists report2 loc2,
    PullFiles config env sampleTree run1.2 = (Ok report2, loc2) /\
    transferred report2 = 0 /\
    skipped report2 = checked report2.
Proof.
  split; [reflexivity|].
  apply (second_pull_transfers_nothing (sampleConfig ["node_modules/"])
           (sampleEnv 10 6000000000) (sampleEnv 10 6000000000) sampleTree ∅ _
           {| checked := 1; transferred := 1; skipped := 0; ignored := 3 |}).
  - reflexivity.
  - reflexivity.
  - vm_compute. apply NoDup_singleton.
  - intros f n Hf Hcopy. vm_compute in Hf.
    apply list_elem_of_singleton in Hf. subst f.
    injection Hcopy as <-. reflexivity.
  - intros f Hf. vm_compute in Hf.
    apply list_elem_of_singleton in Hf. subst f. reflexivity.
Defined.

(** ** The result of the deployment *)

Ltac no_such_event H :=
  exfalso;
  repeat first
    [ apply elem_of_app in H as [H|H]
    | apply elem_of_cons in H as [H|H]; [different_commands H|] ];
  by apply elem_of_nil in H.

(** X17: [ExecuteDockerCommands] returns no error exactly when the run
    command has completed without one; after a build with an error the
    run command is not issued; and when the home directory cannot be
    found no command but its query is issued. *)
Theorem deployment_result (config : Config) (host : Host)
        (res : option DeployError) (trace : list event) :
  ExecuteDockerCommands config host [] = (res, trace) ->
  (res = None <-> Completed (runCommand config) false ∈ trace) /\
  (res = Some ErrBuild -> Issued (runCommand config) ∉ trace) /\
  (res = Some ErrHome -> Forall (fun ev => isHomeQuery ev = true) trace).
Proof.
  intros Hrun.
  apply ExecuteDockerCommands_shape in Hrun
    as (home & Hhome &
        [[-> ->] | (rp & e1 & e2 & e3 & e4 & tail & -> & Htail)]).
  - split; [|split]; [split|..]; try done.
    + intros H. destruct Hhome as [->|[e ->]]; no_such_event H.
    + intros _. destruct Hhome as [->|[e ->]]; by repeat constructor.
  - destruct Htail as [(-> & -> & ->)|[(-> & -> & ->)|(-> & -> & ->)]];
      (split; [|split]; [split|..]); try done.
    + intros H. destruct Hhome as [->|[e ->]]; no_such_event H.
    + intros _ H. destruct Hhome as [->|[e ->]]; no_such_event H.
    + intros H. destruct Hhome as [->|[e ->]]; no_such_event H.
    + intros _. rewrite !elem_of_app. right; right. find_event.
Qed.

Lemma deployment_result_witness :
  let config := sampleConfig [] in
  let trace :=
    [Issued (checkCommand "/srv/app"); Completed (checkCommand "/srv/app") false;
     Issued (stopCommand config); Completed (stopCommand config) true;
     Issued (rmiCommand config); Completed (rmiCommand config) true;
     Issued (buildCommand config "/srv/app");
     Completed (buildCommand config "/srv/app") false;
     Issued (runCommand config); Completed (runCommand config) false] in
  ExecuteDockerCommands config sampleHost [] = (None, trace) /\
  Completed (runCommand config) false ∈ trace.
Proof.
  intros config trace.
  assert (H : ExecuteDockerCommands config sampleHost [] = (None, trace))
    by reflexivity.
  split; [exact H|].
  by apply (proj1 (deployment_result config sampleHost None trace H)).
Defined.

(** ** What a run without an error has delivered *)

Lemma sameKinds_Stat (fs fs' : fsmap) (path : string) :
  sameKinds fs fs' -> is_Some (Stat fs path) -> is_Some (Stat fs' path).
Proof.
  unfold Stat. intros H [info E].
  destruct (H _ info E) as (info' & E' & _). by exists info'.
Qed.

Lemma pushLoop_delivers (env : Env) (filesToSync : list SyncItem)
      (skippedCount syncedCount : nat) (remote remote' : fsmap)
      (counts : nat * nat) :
  pushLoop env filesToSync skippedCount syncedCount remote
  = (Ok counts, remote') ->
  forall f, f ∈ filesToSync -> is_Some (Stat remote' (remotePath f)).
Proof.
  revert skippedCount syncedCount remote.
  induction filesToSync as [|file rest IH]; intros sk sy remote Hloop f Hf;
    [by apply elem_of_nil in Hf|].
  simpl in Hloop.
  assert (Hrest : forall remote1 sk1 sy1,
             pushLoop env rest sk1 sy1 remote1 = (Ok counts, remote') ->
             is_Some (Stat remote1 (remotePath file)) ->
             is_Some (Stat remote' (remotePath f))).
  { intros remote1 sk1 sy1 Hloop1 Hfile.
    apply elem_of_cons in Hf as [->|Hf]; [|by eapply IH].
    eapply sameKinds_Stat; [|done].
    pose proof (pushLoop_sameKinds env rest sk1 sy1 remote1) as H.
    by rewrite Hloop1 in H. }
  destruct (needsUpdate (Stat remote (remotePath file)) (info file)) eqn:Hneeds.
  - destruct (uploadFile _ _ _ _) as [remote1 []] eqn:Hup; [done|].
    apply uploadFile_ok in Hup as (written & _ & Hstat).
    eapply Hrest; [done|]. by rewrite Hstat.
  - eapply Hrest; [done|]. by eapply needsUpdate_false_Some.
Qed.

(** X18: after a push without an error, every file on its list is
    found at its remote path. *)
Theorem push_delivers (config : Config) (env : Env) (localTree : tree)
        (remote remote' : fsmap) (report : SyncReport) (f : SyncItem) :
  SyncFiles config env localTree remote = (Ok report, remote') ->
  f ∈ planOf config env localTree ->
  is_Some (Stat remote' (remotePath f)).
Proof.
  intros Hrun Hf.
  apply SyncFiles_ok in Hrun
    as (localInfo & remotePath & st & _ & _ & Hexp & Hscan & counts & Hloop).
  unfold planOf in Hf. rewrite Hexp in Hf.
  destruct (scanLocal_same_scan config env env remotePath localTree
              (MkdirAll env remotePath remote).1 (@empty fsmap gmap_empty))
    as (Hplan & _ & _).
  rewrite Hscan in Hplan. simpl in Hplan. rewrite <- Hplan in Hf.
  by eapply pushLoop_delivers.
Qed.

Lemma push_delivers_witness :
  let config := sampleConfig ["node_modules/"] in
  let env := sampleEnv 10 100 in
  let f := {| localPath := "proj/a.txt"; remotePath := "/srv/app/a.txt";
              relPath := "a.txt"; info := fileInfo "a.txt" 10 5000000000 |} in
  let run := SyncFiles config env sampleTree ∅ in
  run.1 = Ok {| checked := 1; transferred := 1; skipped := 0; ignored := 1 |} /\
  f ∈ planOf config env sampleTree /\
  is_Some (Stat run.2 "/srv/app/a.txt").
Proof.
  intros config env f run.
  assert (Hf : f ∈ planOf config env sampleTree).
  { vm_compute. apply list_elem_of_here. }
  split; [reflexivity|]. split; [exact Hf|].
  apply (push_delivers config env sampleTree ∅ run.2
           {| checked := 1; transferred := 1; skipped := 0; ignored := 1 |} f);
    [reflexivity|exact Hf].
Defined.

Lemma pullLoop_delivers (env : Env) (filesToPull : list SyncItem)
      (downloadedCount skippedCount : nat) (loc loc' : fsmap)
      (counts : nat * nat) :
  pullLoop env filesToPull downloadedCount skippedCount loc
  = (Ok counts, loc') ->
  forall f, f ∈ filesToPull -> is_Some (Stat loc' (localPath f)).
Proof.
  revert downloadedCount skippedCount loc.
  induction filesToPull as [|file rest IH]; intros dl sk loc Hloop f Hf;
    [by apply elem_of_nil in Hf|].
  simpl in Hloop.
  assert (Hrest : forall loc1 dl1 sk1,
             pullLoop env rest dl1 sk1 loc1 = (Ok counts, loc') ->
             is_Some (Stat loc1 (localPath file)) ->
             is_Some (Stat loc' (localPath f))).
  { intros loc1 dl1 sk1 Hloop1 Hfile.
    apply elem_of_cons in Hf as [->|Hf]; [|by eapply IH].
    eapply sameKinds_Stat; [|done].
    pose proof (pullLoop_sameKinds env rest dl1 sk1 loc1) as H.
    by rewrite Hloop1 in H. }
  destruct (needsUpdate (Stat loc (localPath file)) (info file)) eqn:Hneeds.
  - destruct (downloadFile _ _ _ _) as [loc1 []] eqn:Hdown; [done|].
    apply downloadFile_ok in Hdown as (written & _ & Hstat).
    eapply Hrest; [done|]. by rewrite Hstat.
  - eapply Hrest; [done|]. by eapply needsUpdate_false_Some.
Qed.

(** X19: after a pull without an error, the local folder is a directory
    and every file on the list of the pull is found at its local
    path. *)
Theorem pull_delivers (config : Config) (env : Env) (remoteTree : tree)
        (loc loc' : fsmap) (report : SyncReport) :
  PullFiles config env remoteTree loc = (Ok report, loc') ->
  (exists folder, Stat loc' (LocalFolder config) = Some folder
                  /\ IsDir folder = true) /\
  forall f, f ∈ pullPlanOf config env remoteTree ->
            is_Some (Stat loc' (localPath f)).
Proof.
  intros Hrun.
  apply PullFiles_ok in Hrun as (remotePath & loc1 & Hexp & Hmk & Hrun).
  cbn zeta in Hrun. destruct Hrun as [counts Hloop].
  unfold pullPlanOf. rewrite Hexp. cbn zeta.
  destruct (pullScan_same_scan config env env (filepath.ToSlash remotePath)
              (walkerItems (filepath.ToSlash remotePath) remoteTree)
              {| files := []; ignoredCount := 0; dest := loc1 |}
              {| files := []; ignoredCount := 0;
                 dest := @empty fsmap gmap_empty |} eq_refl eq_refl)
    as [Hplan _].
  rewrite <- Hplan. split.
  - apply MkdirAll_ok in Hmk as (folder0 & Hfolder & Hdir).
    unfold Stat.
    set (st := pullScan config env _ _ {| dest := loc1 |}) in *.
    pose proof (pullLoop_sameKinds env (files st) 0 0 (dest st)) as Hkeep.
    rewrite Hloop in Hkeep.
    destruct (Hkeep (filepath.Clean (LocalFolder config)) folder0)
      as (folder & Hfound & Hkind).
    + eapply onlyNewDirs_lookup; [|done].
      apply (pullScan_onlyNewDirs config env (filepath.ToSlash remotePath) _
               {| files := []; ignoredCount := 0; dest := loc1 |}).
    + exists folder. split; [done|congruence].
  - intros f Hf. by eapply pullLoop_delivers.
Qed.

Lemma pull_delivers_witness :
  let config := sampleConfig ["node_modules/"] in
  let env := sampleEnv 10 100 in
  let run := PullFiles config env sampleTree ∅ in
  run.1 = Ok {| checked := 1; transferred := 1; skipped := 0; ignored := 3 |} /\
  exists folder, Stat run.2 "proj" = Some folder /\ IsDir folder = true.
Proof.
  intros config env run. split; [reflexivity|].
  apply (pull_delivers config env sampleTree ∅ run.2
           {| checked := 1; transferred := 1; skipped := 0; ignored := 3 |}).
  reflexivity.
Defined.
